(** * Telemarketing analysis: the filter-and-aggregate pipeline of [app_7.py]

    A shallow embedding of [load_data], [multiselect_filter] and the body of
    [main] up to the two proportion tables: the loader with its fallback,
    the age range query, the chain of categorical filters, the proportion
    table of the target column [y] and the fallback to the proportions of
    the unfiltered table.  The two export helpers are single calls into the
    library's writers and are not modelled.

    pandas values are modelled cell by cell.  A cell is a number, a text or
    missing (NaN / None).  Numbers are exact rationals; the two places where
    pandas computes in binary64 (the normalised counts and their product by
    100) go through an explicit rounding operator.  The readers of the
    loader and Python's [int] on a text are parameters.  An exception is a
    result of its own, so that a run that raises is told apart from a run
    that returns. *)

From Stdlib Require Import String Ascii.
From Stdlib Require Import ZArith QArith Qabs Bool Arith Lia Lqa.
From Stdlib Require Import List Permutation Sorted.
Import ListNotations.

Local Open Scope string_scope.
Local Open Scope list_scope.

(** ** Exceptions and results *)

(** The Python exception classes that the modelled code can raise. *)
Inductive exn : Type :=
| KeyError
| TypeError
| ValueError
| UndefinedVariableError
| StopException
| EmptyDataError
| ParserError
| UnicodeDecodeError
| BadZipFile.

Inductive result (A : Type) : Type :=
| Ok (a : A)
| Raise (e : exn).

Arguments Ok {A} a.
Arguments Raise {A} e.

Definition bind {A B : Type} (m : result A) (f : A -> result B) : result B :=
  match m with
  | Ok a => f a
  | Raise e => Raise e
  end.

Notation "x <- m ;; k" := (bind m (fun x => k))
  (at level 61, m at next level, right associativity).

Fixpoint mapM {A B : Type} (f : A -> result B) (l : list A) : result (list B) :=
  match l with
  | [] => Ok []
  | a :: t => b <- f a ;; bs <- mapM f t ;; Ok (b :: bs)
  end.

(** ** Cells, rows and frames *)

(** A non-missing value: a number (int64 / float64) or a text. *)
Inductive scalar : Type :=
| Num (q : Q)
| Str (s : string).

(** A cell; [None] is the missing value. *)
Definition cell : Type := option scalar.

(** Python [==] between two values: numbers compare by value
    ([1 == 1.0]), texts character by character, a number never equals a
    text. *)
Definition scalar_eqb (a b : scalar) : bool :=
  match a, b with
  | Num p, Num q => Qeq_bool p q
  | Str s, Str t => String.eqb s t
  | _, _ => false
  end.

(** A row: its index label and its cells, in column order. *)
Record Row : Type := mkRow { label : nat; values : list cell }.

Record DataFrame : Type := mkDF { columns : list string; rows : list Row }.

Fixpoint col_pos (c : string) (cols : list string) : option nat :=
  match cols with
  | [] => None
  | h :: t => if String.eqb h c then Some 0%nat else option_map S (col_pos c t)
  end.

(** The cell of row [r] at position [i]. *)
Definition cell_at (i : nat) (r : Row) : cell := nth i (values r) None.

(** [df[col]]: the column as a series of cells; [KeyError] when the frame
    has no such column. *)
Definition getitem_col (df : DataFrame) (col : string) : result (list cell) :=
  match col_pos col (columns df) with
  | Some i => Ok (map (cell_at i) (rows df))
  | None => Raise KeyError
  end.

(** [df[mask]]: boolean indexing, the rows whose mask entry is [True]; index
    labels are kept. *)
Fixpoint select_rows (rs : list Row) (mask : list bool) : list Row :=
  match rs, mask with
  | r :: rs', b :: mask' =>
      if b then r :: select_rows rs' mask' else select_rows rs' mask'
  | _, _ => []
  end.

Definition getitem_mask (df : DataFrame) (mask : list bool) : DataFrame :=
  mkDF (columns df) (select_rows (rows df) mask).

(** [df.reset_index(drop=True)]: labels become 0, 1, 2, ... *)
Fixpoint relabel (start : nat) (rs : list Row) : list Row :=
  match rs with
  | [] => []
  | r :: t => mkRow start (values r) :: relabel (S start) t
  end.

Definition reset_index (df : DataFrame) : DataFrame :=
  mkDF (columns df) (relabel 0 (rows df)).

(** [df.empty]: some axis has length zero. *)
Definition empty (df : DataFrame) : bool :=
  match columns df, rows df with
  | [], _ => true
  | _, [] => true
  | _, _ => false
  end.

(** [df.head(n)]. *)
Definition head (n : nat) (df : DataFrame) : DataFrame :=
  mkDF (columns df) (firstn n (rows df)).

(** ** The categorical filter *)

(** [x in xs] on a Python list. *)
Definition py_in (x : scalar) (xs : list scalar) : bool :=
  existsb (scalar_eqb x) xs.

(** [series.isin(values)].  The selections come from the options built by
    [plus_all], which drops missing values, so [values] is a list of proper
    values and a missing cell matches none of them. *)
Definition isin_cell (vals : list scalar) (c : cell) : bool :=
  match c with
  | Some v => existsb (scalar_eqb v) vals
  | None => false
  end.

Definition isin (series : list cell) (vals : list scalar) : list bool :=
  map (isin_cell vals) series.

Definition multiselect_filter (relatorio : DataFrame) (col : string)
    (selecionados : list scalar) : result DataFrame :=
  if py_in (Str "all") selecionados then Ok relatorio
  else
    series <- getitem_col relatorio col ;;
    Ok (reset_index (getitem_mask relatorio (isin series selecionados))).

(** ** The age range query *)

(** One comparison of the query expression on one cell: a missing value
    compares false, a text against a number raises [TypeError]. *)
Definition cell_ge (x : Q) (c : cell) : result bool :=
  match c with
  | None => Ok false
  | Some (Num q) => Ok (Qle_bool x q)
  | Some (Str _) => Raise TypeError
  end.

Definition cell_le (x : Q) (c : cell) : result bool :=
  match c with
  | None => Ok false
  | Some (Num q) => Ok (Qle_bool q x)
  | Some (Str _) => Raise TypeError
  end.

Fixpoint mask_and (a b : list bool) : list bool :=
  match a, b with
  | x :: a', y :: b' => (x && y) :: mask_and a' b'
  | _, _ => []
  end.

(** [bank.query("age >= @idades[0] and age <= @idades[1]")]: both
    comparisons are evaluated on the whole column, combined element by
    element, and the frame is indexed by the resulting mask.  A frame
    without an [age] column makes the expression undefined. *)
Definition query_age (bank : DataFrame) (lo hi : Q) : result DataFrame :=
  match col_pos "age" (columns bank) with
  | None => Raise UndefinedVariableError
  | Some i =>
      let age := map (cell_at i) (rows bank) in
      m1 <- mapM (cell_ge lo) age ;;
      m2 <- mapM (cell_le hi) age ;;
      Ok (getitem_mask bank (mask_and m1 m2))
  end.

(** The values returned by the sidebar widgets. *)
Record Widgets : Type := mkWidgets {
  idades : Z * Z;
  jobs_selected : list scalar;
  marital_selected : list scalar;
  default_selected : list scalar;
  housing_selected : list scalar;
  loan_selected : list scalar;
  contact_selected : list scalar;
  month_selected : list scalar;
  day_of_week_selected : list scalar
}.

(** The default of every multiselect. *)
Definition all_selected : list scalar := [Str "all"].

(** The form as it is first rendered, for a slider that spans [lo, hi]:
    the slider on its full range and every multiselect on its default. *)
Definition untouched (lo hi : Z) : Widgets :=
  mkWidgets (lo, hi) all_selected all_selected all_selected all_selected
    all_selected all_selected all_selected all_selected.

(** The filter chain of [main] (the statement after "Apply filters"). *)
Definition apply_filters (bank : DataFrame) (w : Widgets) : result DataFrame :=
  b0 <- query_age bank (inject_Z (fst (idades w))) (inject_Z (snd (idades w))) ;;
  b1 <- multiselect_filter b0 "job" (jobs_selected w) ;;
  b2 <- multiselect_filter b1 "marital" (marital_selected w) ;;
  b3 <- multiselect_filter b2 "default" (default_selected w) ;;
  b4 <- multiselect_filter b3 "housing" (housing_selected w) ;;
  b5 <- multiselect_filter b4 "loan" (loan_selected w) ;;
  b6 <- multiselect_filter b5 "contact" (contact_selected w) ;;
  b7 <- multiselect_filter b6 "month" (month_selected w) ;;
  multiselect_filter b7 "day_of_week" (day_of_week_selected w).

(** ** Ordering of values, column reductions *)

(** Python [a <= b]: defined between two numbers and between two texts
    (code point order), [TypeError] otherwise. *)
Definition scalar_leb (a b : scalar) : result bool :=
  match a, b with
  | Num p, Num q => Ok (Qle_bool p q)
  | Str s, Str t => Ok (String.leb s t)
  | _, _ => Raise TypeError
  end.

(** The non-missing cells of a series. *)
Fixpoint dropna (s : list cell) : list scalar :=
  match s with
  | [] => []
  | Some v :: t => v :: dropna t
  | None :: t => dropna t
  end.

(** Running maximum / minimum over the remaining values. *)
Fixpoint fold_max (m : scalar) (l : list scalar) : result scalar :=
  match l with
  | [] => Ok m
  | v :: t => b <- scalar_leb m v ;; fold_max (if b then v else m) t
  end.

Fixpoint fold_min (m : scalar) (l : list scalar) : result scalar :=
  match l with
  | [] => Ok m
  | v :: t => b <- scalar_leb v m ;; fold_min (if b then v else m) t
  end.

Definition has_missing (s : list cell) : bool :=
  existsb (fun c => match c with None => true | Some _ => false end) s.

Definition has_text (s : list cell) : bool :=
  existsb (fun c => match c with Some (Str _) => true | _ => false end) s.

(** [series.max()] / [series.min()]: missing values are skipped, and the
    result is missing when nothing is left.  pandas skips them by putting
    an infinite float in their place before reducing, so a column that
    holds both a missing value and a text raises like any other mix of
    texts and numbers. *)
Definition series_max (s : list cell) : result cell :=
  match dropna s with
  | [] => Ok None
  | v :: t =>
      if has_missing s && has_text s then Raise TypeError
      else m <- fold_max v t ;; Ok (Some m)
  end.

Definition series_min (s : list cell) : result cell :=
  match dropna s with
  | [] => Ok None
  | v :: t =>
      if has_missing s && has_text s then Raise TypeError
      else m <- fold_min v t ;; Ok (Some m)
  end.

(** Insertion into a list sorted by key, and the sort itself; a comparison
    that raises aborts the sort. *)
Fixpoint insert_key {V : Type} (kv : scalar * V) (l : list (scalar * V))
  : result (list (scalar * V)) :=
  match l with
  | [] => Ok [kv]
  | h :: t =>
      b <- scalar_leb (fst kv) (fst h) ;;
      if b then Ok (kv :: h :: t)
      else t' <- insert_key kv t ;; Ok (h :: t')
  end.

Fixpoint sort_keys {V : Type} (l : list (scalar * V)) : result (list (scalar * V)) :=
  match l with
  | [] => Ok []
  | h :: t => t' <- sort_keys t ;; insert_key h t'
  end.

(** [series.unique()]: the distinct cells in order of first appearance;
    all missing values count as one. *)
Definition cell_eqb (a b : cell) : bool :=
  match a, b with
  | None, None => true
  | Some x, Some y => scalar_eqb x y
  | _, _ => false
  end.

Fixpoint unique_aux (seen : list cell) (s : list cell) : list cell :=
  match s with
  | [] => []
  | c :: t =>
      if existsb (cell_eqb c) seen then unique_aux seen t
      else c :: unique_aux (c :: seen) t
  end.

Definition unique (s : list cell) : list cell := unique_aux [] s.

(** [plus_all]: the sorted non-missing values followed by the sentinel. *)
Definition plus_all (unique_list : list cell) : result (list scalar) :=
  xs <- sort_keys (map (fun v => (v, tt)) (dropna unique_list)) ;;
  Ok (map fst xs ++ [Str "all"]).

(** ** Proportions of the target column *)

(** A series indexed by values: the (index, value) pairs in order. *)
Definition Series (V : Type) : Type := list (scalar * V).

(** Counting one more occurrence of [v]. *)
Fixpoint bump (v : scalar) (acc : Series nat) : Series nat :=
  match acc with
  | [] => [(v, 1%nat)]
  | (k, c) :: t => if scalar_eqb k v then (k, S c) :: t else (k, c) :: bump v t
  end.

(** The counting loop, started from a partial count. *)
Definition count_from (acc : Series nat) (l : list scalar) : Series nat :=
  fold_left (fun acc v => bump v acc) l acc.

(** Occurrences of each non-missing value, in order of first appearance. *)
Definition count_values (s : list cell) : Series nat :=
  count_from [] (dropna s).

(** Ordering by decreasing count. *)
Fixpoint insert_count (kc : scalar * nat) (l : Series nat) : Series nat :=
  match l with
  | [] => [kc]
  | h :: t =>
      if (snd h <=? snd kc)%nat then kc :: h :: t else h :: insert_count kc t
  end.

Definition sort_counts (l : Series nat) : Series nat :=
  fold_right insert_count [] l.

Definition sum_counts (l : Series nat) : nat :=
  fold_right (fun kc acc => (snd kc + acc)%nat) 0%nat l.

Definition Qsum (l : list Q) : Q := fold_right Qplus 0 l.

Definition Qnat (n : nat) : Q := inject_Z (Z.of_nat n).

(** The unit roundoff of binary64. *)
Definition u64 : Q := 1 # 9007199254740992.

Section Rounded.

(** Rounding of an exact result to binary64. *)
Variable fl : Q -> Q.

(** [series.value_counts(normalize=True)]: missing values are dropped, the
    counts are put in decreasing order and divided by their sum. *)
Definition value_counts_normalize (s : list cell) : Series Q :=
  let counts := sort_counts (count_values s) in
  let total := sum_counts counts in
  map (fun kc => (fst kc, fl (Qnat (snd kc) / Qnat total))) counts.

(** [series.sort_index()]. *)
Definition sort_index (s : Series Q) : result (Series Q) := sort_keys s.

(** [series * 100]. *)
Definition times100 (s : Series Q) : Series Q :=
  map (fun kp => (fst kp, fl (snd kp * 100))) s.

(** [(df["y"].value_counts(normalize=True).sort_index() * 100).to_frame(name="y")]:
    the percentage of each value of [y]; [to_frame] only names the column. *)
Definition target_perc (df : DataFrame) : result (Series Q) :=
  y <- getitem_col df "y" ;;
  s <- sort_index (value_counts_normalize y) ;;
  Ok (times100 s).

End Rounded.

(** ** The loader *)

(** An uploaded file: its bytes and the read position. *)
Record stream : Type := mkStream { content : list ascii; position : nat }.

Definition seek (f : stream) (pos : nat) : stream := mkStream (content f) pos.

(** What [load_data] does to the file, in order. *)
Inductive call : Type :=
| call_read_csv (sep : string) (pos : nat)
| call_seek (pos : nat)
| call_read_excel (pos : nat).

Record Loaded : Type := mkLoaded {
  outcome : result DataFrame;
  calls : list call;
  file_after : stream
}.

Section Loader.

(** [pd.read_csv(file, sep=...)] and [pd.read_excel(file)]: the outcome and
    the file as the reader leaves it. *)
Variable read_csv : string -> stream -> result DataFrame * stream.
Variable read_excel : stream -> result DataFrame * stream.

(** "Try CSV (sep=';') then Excel."  The memoisation of the decorator is
    not modelled. *)
Definition load_data (file_data : stream) : Loaded :=
  let (r, f1) := read_csv ";" file_data in
  match r with
  | Ok df => mkLoaded (Ok df) [call_read_csv ";" (position file_data)] f1
  | Raise _ =>
      let f2 := seek f1 0 in
      let (r2, f3) := read_excel f2 in
      mkLoaded r2
        [call_read_csv ";" (position file_data); call_seek 0;
         call_read_excel (position f2)]
        f3
  end.

End Loader.

(** ** The page *)

(** What the page shows, as far as the pipeline is concerned. *)
Inductive ui_event : Type :=
| info_upload_a_file
| error_missing_columns (missing : list string)
| dataframe (df : DataFrame)
| warning_no_row_matches
| info_using_original_proportion.

(** A run of the script: what was shown, and how the run ended. *)
Definition ui (A : Type) : Type := (list ui_event * result A)%type.

Definition ui_ret {A : Type} (a : A) : ui A := ([], Ok a).

Definition ui_bind {A B : Type} (m : ui A) (f : A -> ui B) : ui B :=
  match m with
  | (shown, Ok a) => let (shown', r) := f a in (shown ++ shown', r)
  | (shown, Raise e) => (shown, Raise e)
  end.

Definition show (e : ui_event) : ui unit := ([e], Ok tt).

Definition lift {A : Type} (r : result A) : ui A := ([], r).

Notation "x <~ m ;; k" := (ui_bind m (fun x => k))
  (at level 61, m at next level, right associativity).

Definition required_cols : list string :=
  ["age"; "job"; "marital"; "default"; "housing"; "loan";
   "contact"; "month"; "day_of_week"; "y"].

(** The options of one multiselect. *)
Definition options (bank : DataFrame) (col : string) : result (list scalar) :=
  s <- getitem_col bank col ;; plus_all (unique s).

(** What a completed run has computed: the filtered table and the two
    proportion tables that are shown, exported and plotted. *)
Record Report : Type := mkReport {
  bank_filtered : DataFrame;
  bank_raw_target_perc : Series Q;
  bank_target_perc : Series Q
}.

Section Page.

Variable read_csv : string -> stream -> result DataFrame * stream.
Variable read_excel : stream -> result DataFrame * stream.
Variable fl : Q -> Q.

(** Python [int] on a text. *)
Variable int_of_text : string -> result Z.

(** Python [int] on the result of a column reduction: NaN raises, a number
    is truncated towards zero. *)
Definition py_int (c : cell) : result Z :=
  match c with
  | None => Raise ValueError
  | Some (Num q) => Ok (Z.quot (Qnum q) (Zpos (Qden q)))
  | Some (Str s) => int_of_text s
  end.

(** [main] from "Basic checks" up to the sidebar form: the required
    columns, the preview of the raw table, the bounds of the age slider
    and the options of the eight multiselects. *)
Definition before_filters (bank_raw : DataFrame) : ui (Z * Z) :=
  let bank := bank_raw in
  let missing :=
    filter (fun c => negb (existsb (String.eqb c) (columns bank))) required_cols in
  _ <~ match missing with
       | [] => ui_ret tt
       | _ => _ <~ show (error_missing_columns missing) ;; lift (Raise StopException)
       end ;;
  _ <~ show (dataframe (head 50 bank_raw)) ;;
  max_age <~ lift (age <- getitem_col bank "age" ;; m <- series_max age ;; py_int m) ;;
  min_age <~ lift (age <- getitem_col bank "age" ;; m <- series_min age ;; py_int m) ;;
  _ <~ lift (options bank "job") ;;
  _ <~ lift (options bank "marital") ;;
  _ <~ lift (options bank "default") ;;
  _ <~ lift (options bank "housing") ;;
  _ <~ lift (options bank "loan") ;;
  _ <~ lift (options bank "contact") ;;
  _ <~ lift (options bank "month") ;;
  _ <~ lift (options bank "day_of_week") ;;
  ui_ret (min_age, max_age).

(** [main] from "Apply filters" to the two proportion tables. *)
Definition after_filters (bank_raw : DataFrame) (w : Widgets) : ui Report :=
  bank <~ lift (apply_filters bank_raw w) ;;
  _ <~ (if empty bank then show warning_no_row_matches
        else show (dataframe (head 50 bank))) ;;
  raw_perc <~ lift (target_perc fl bank_raw) ;;
  perc <~ (if empty bank
           then _ <~ show info_using_original_proportion ;; ui_ret raw_perc
           else lift (target_perc fl bank)) ;;
  ui_ret (mkReport bank raw_perc perc).

(** [main], up to the two proportion tables; [w] holds what the widgets of
    the form return.  Without an upload the page only asks for one. *)
Definition main (data_file_1 : option stream) (w : Widgets) : ui (option Report) :=
  match data_file_1 with
  | None => _ <~ show info_upload_a_file ;; ui_ret None
  | Some file =>
      bank_raw <~ lift (outcome (load_data read_csv read_excel file)) ;;
      _ <~ before_filters bank_raw ;;
      report <~ after_filters bank_raw w ;;
      ui_ret (Some report)
  end.

End Page.

(** ** Sample data *)

Definition text (s : string) : cell := Some (Str s).
Definition number (z : Z) : cell := Some (Num (inject_Z z)).

(** A row of a table that has exactly the required columns. *)
Definition bank_row (i : nat) (age job marital y : cell) : Row :=
  mkRow i [age; job; marital; text "no"; text "yes"; text "no";
           text "cellular"; text "may"; text "mon"; y].

(** Five contacts; [y] is yes, no, no, yes, no. *)
Definition bank_five : DataFrame :=
  mkDF required_cols
    [bank_row 0 (number 25) (text "admin") (text "single") (text "yes");
     bank_row 1 (number 30) (text "admin") (text "married") (text "no");
     bank_row 2 (number 35) (text "technician") (text "married") (text "no");
     bank_row 3 (number 40) (text "admin") None (text "yes");
     bank_row 4 (number 45) (text "services") (text "single") (text "no")].


(** Two contacts whose outcome was not recorded. *)
Definition bank_y_missing : DataFrame :=
  mkDF required_cols
    [bank_row 0 (number 30) (text "admin") (text "single") None;
     bank_row 1 (number 40) (text "services") (text "married") None].

(** Two contacts from a workbook whose [y] cells are a text and a number. *)
Definition bank_y_mixed : DataFrame :=
  mkDF required_cols
    [bank_row 0 (number 30) (text "admin") (text "single") (text "yes");
     bank_row 1 (number 40) (text "services") (text "married") (number 0)].

(** Exact arithmetic, as a rounding operator without error. *)
Definition exact (x : Q) : Q := x.

(** An [int] that accepts no text. *)
Definition int_rejects (s : string) : result Z := Raise ValueError.

(** Two contacts whose age was typed as text in the workbook. *)
Definition bank_age_text : DataFrame :=
  mkDF required_cols
    [bank_row 0 (text "30") (text "admin") (text "single") (text "yes");
     bank_row 1 (text "40") (text "services") (text "married") (text "no")].

(** Two uploads that hold no table: one byte that is not UTF-8, and the
    signature of a zip archive followed by that byte. *)
Definition not_text_file : stream := mkStream ["255"%char] 0.

Definition broken_zip_file : stream :=
  mkStream ["P"%char; "K"%char; "003"%char; "004"%char; "255"%char] 0.

(** The pandas readers on uploads that are neither text nor a workbook:
    [read_csv] fails to decode; [read_excel] fails to open what starts
    like a zip archive and cannot determine the format of the rest. *)
Definition binary_read_csv (sep : string) (f : stream) : result DataFrame * stream :=
  (Raise UnicodeDecodeError, seek f (length (content f))).

Definition binary_read_excel (f : stream) : result DataFrame * stream :=
  match content f with
  | "P"%char :: "K"%char :: "003"%char :: "004"%char :: _ =>
      (Raise BadZipFile, seek f (length (content f)))
  | _ => (Raise ValueError, seek f 4)
  end.

(** An upload that [read_csv] parses into the five contacts. *)
Definition five_file : stream := mkStream [] 0.

Definition reads_five (sep : string) (f : stream) : result DataFrame * stream :=
  (Ok bank_five, seek f (length (content f))).

(** The form with the slider on the observed ages and the multiselect of
    the profession emptied. *)
Definition no_job_selected : Widgets :=
  mkWidgets (25, 45)%Z [] all_selected all_selected all_selected
    all_selected all_selected all_selected all_selected.

(** ** Vocabulary of the statements *)

(** Two values are the same: equal numbers, or identical texts. *)
Definition same_value (a b : scalar) : Prop :=
  match a, b with
  | Num p, Num q => p == q
  | Str s, Str t => s = t
  | _, _ => False
  end.


(** The cell holds a number within the closed range. *)
Definition in_range (lo hi : Q) (c : cell) : Prop :=
  exists q, c = Some (Num q) /\ lo <= q /\ q <= hi.

(** The cell does not hold a text. *)
Definition not_text (c : cell) : Prop :=
  match c with
  | Some (Str _) => False
  | _ => True
  end.

(** The comparisons of the query on a cell that holds no text. *)
Definition ge_bool (x : Q) (c : cell) : bool :=
  match c with
  | Some (Num q) => Qle_bool x q
  | _ => false
  end.

Definition le_bool (x : Q) (c : cell) : bool :=
  match c with
  | Some (Num q) => Qle_bool q x
  | _ => false
  end.

(** All values are numbers, or all are texts. *)
Definition one_kind (l : list scalar) : Prop :=
  (forall v, In v l -> exists q, v = Num q) \/
  (forall v, In v l -> exists s, v = Str s).

(** The entries of a series whose key is the value [v]. *)
Definition entries_for {V : Type} (v : scalar) (S : Series V) : Series V :=
  filter (fun kp => scalar_eqb (fst kp) v) S.

(** The exact proportion of one counted value among [n], and the
    percentage that the pipeline computes for it. *)
Definition share (n : nat) (kc : scalar * nat) : Q := Qnat (snd kc) / Qnat n.

Definition percent (fl : Q -> Q) (n : nat) (kc : scalar * nat) : Q :=
  fl (fl (share n kc) * 100).

(** The largest integer below which every integer is a binary64 number. *)
Definition two53 : Z := 9007199254740992.

(** What binary64 rounding to nearest guarantees on the range the
    proportions live in: a relative error of at most [u64], monotonicity,
    and that 1 and 100 are representable. *)
Record rounding (fl : Q -> Q) : Prop := mkRounding {
  fl_error : forall x, u64 <= x -> x <= 100 -> Qabs (fl x - x) <= u64 * x;
  fl_monotone : forall x y, x <= y -> fl x <= fl y;
  fl_one : fl 1 == 1;
  fl_hundred : fl 100 == 100
}.

(** ** Vocabulary of the further properties *)

(** The cell of a row, given as its list of cells, in the column [col]. *)
Definition value_at (cols : list string) (col : string) (vs : list cell) : cell :=
  match col_pos col cols with
  | Some i => nth i vs None
  | None => None
  end.

(** The cells pass one multiselect: it holds "all", or it holds the value
    of the cell. *)
Definition chosen (cols : list string) (col : string) (sel : list scalar)
    (vs : list cell) : bool :=
  py_in (Str "all") sel || isin_cell sel (value_at cols col vs).

(** The cells pass the slider. *)
Definition age_between (cols : list string) (lo hi : Q) (vs : list cell) : bool :=
  ge_bool lo (value_at cols "age" vs) && le_bool hi (value_at cols "age" vs).


(** Some multiselect does not hold "all". *)
Definition restrictive (w : Widgets) : bool :=
  negb (py_in (Str "all") (jobs_selected w))
  || negb (py_in (Str "all") (marital_selected w))
  || negb (py_in (Str "all") (default_selected w))
  || negb (py_in (Str "all") (housing_selected w))
  || negb (py_in (Str "all") (loan_selected w))
  || negb (py_in (Str "all") (contact_selected w))
  || negb (py_in (Str "all") (month_selected w))
  || negb (py_in (Str "all") (day_of_week_selected w)).

(** How many values of the list are the value [v]. *)
Definition occurrences (v : scalar) (l : list scalar) : nat :=
  length (filter (fun x => scalar_eqb x v) l).

(** [a <= b] holds in Python. *)
Definition key_le (a b : scalar) : Prop := scalar_leb a b = Ok true.

(** The same, between the keys of two entries. *)
Definition by_key {V : Type} (x y : scalar * V) : Prop :=
  key_le (fst x) (fst y).


(** The required columns that the table does not have, in the order of
    [required_cols]. *)
Definition absent_required (bank : DataFrame) : list string :=
  filter (fun c => negb (existsb (String.eqb c) (columns bank))) required_cols.

(** Further sample data. *)

(** A table with the required columns and no row: an upload that holds
    only its header line. *)
Definition bank_no_rows : DataFrame := mkDF required_cols [].

(** A table without the columns [loan] and [y]. *)
Definition bank_two_absent : DataFrame :=
  mkDF ["age"; "job"; "marital"; "default"; "housing";
        "contact"; "month"; "day_of_week"]
    [mkRow 0 [number 30; text "admin"; text "single"; text "no"; text "yes";
              text "cellular"; text "may"; text "mon"]].


(** The form with the slider on [[30, 40]], the profession on "admin" and
    the marital status on "single" or "married". *)
Definition admin_30_40 : Widgets :=
  mkWidgets (30, 40)%Z [Str "admin"] [Str "single"; Str "married"]
    all_selected all_selected all_selected all_selected all_selected
    all_selected.

(** Readers that return the given table, or fail. *)
Definition reads_table (df : DataFrame) (sep : string) (f : stream)
  : result DataFrame * stream :=
  (Ok df, seek f (length (content f))).

(** * Properties *)

(** ** Frames *)

Lemma select_rows_map (keep : Row -> bool) (rs : list Row) :
  select_rows rs (map keep rs) = filter keep rs.
Proof.
  induction rs as [|r rs IH]; simpl; [reflexivity|].
  rewrite IH. reflexivity.
Qed.

Lemma relabel_values (n : nat) (rs : list Row) :
  map values (relabel n rs) = map values rs.
Proof.
  revert n. induction rs as [|r rs IH]; intro n; simpl; [reflexivity|].
  now rewrite IH.
Qed.

Lemma relabel_labels (n : nat) (rs : list Row) :
  map label (relabel n rs) = seq n (length rs).
Proof.
  revert n. induction rs as [|r rs IH]; intro n; simpl; [reflexivity|].
  now rewrite IH.
Qed.

Lemma relabel_length (n : nat) (rs : list Row) :
  length (relabel n rs) = length rs.
Proof.
  revert n. induction rs as [|r rs IH]; intro n; simpl; [reflexivity|].
  now rewrite IH.
Qed.

Lemma getitem_col_pos (df : DataFrame) (col : string) (i : nat) :
  col_pos col (columns df) = Some i ->
  getitem_col df col = Ok (map (cell_at i) (rows df)).
Proof.
  intro H. unfold getitem_col. now rewrite H.
Qed.

(** ** Membership *)

Lemma scalar_eqb_same (a b : scalar) :
  scalar_eqb a b = true <-> same_value a b.
Proof.
  destruct a as [p|s], b as [q|t]; simpl.
  - apply Qeq_bool_iff.
  - split; [discriminate | contradiction].
  - split; [discriminate | contradiction].
  - apply String.eqb_eq.
Qed.

Lemma py_in_all (s : list scalar) :
  py_in (Str "all") s = true <-> In (Str "all") s.
Proof.
  unfold py_in. rewrite existsb_exists. split.
  - intros [x [Hin Heq]]. destruct x as [q|t]; unfold scalar_eqb in Heq;
      [discriminate|].
    apply String.eqb_eq in Heq. now subst.
  - intro Hin. exists (Str "all"). split; [assumption|].
    unfold scalar_eqb. apply String.eqb_refl.
Qed.


(** ** The categorical filter *)

Lemma multiselect_filter_all (T : DataFrame) (c : string) (s : list scalar) :
  In (Str "all") s -> multiselect_filter T c s = Ok T.
Proof.
  intro H. apply py_in_all in H. unfold multiselect_filter. now rewrite H.
Qed.

Lemma multiselect_filter_restrict (T : DataFrame) (c : string) (i : nat)
    (s : list scalar) :
  ~ In (Str "all") s ->
  col_pos c (columns T) = Some i ->
  multiselect_filter T c s =
    Ok (mkDF (columns T)
          (relabel 0 (filter (fun r => isin_cell s (cell_at i r)) (rows T)))).
Proof.
  intros Hall Hc. unfold multiselect_filter.
  destruct (py_in (Str "all") s) eqn:E.
  - exfalso. apply Hall. now apply py_in_all.
  - rewrite (getitem_col_pos _ _ _ Hc). simpl.
    unfold reset_index, getitem_mask, isin. simpl.
    rewrite map_map, select_rows_map. reflexivity.
Qed.





(** ** The age range query *)

Lemma mapM_total {A B : Type} (f : A -> result B) (g : A -> B) (l : list A) :
  (forall a, In a l -> f a = Ok (g a)) ->
  mapM f l = Ok (map g l).
Proof.
  induction l as [|a l IH]; intro H; simpl; [reflexivity|].
  rewrite (H a (or_introl eq_refl)). simpl.
  rewrite IH; [reflexivity|]. intros b Hb. apply H. now right.
Qed.

Lemma mask_and_map {A : Type} (f g : A -> bool) (l : list A) :
  mask_and (map f l) (map g l) = map (fun a => f a && g a) l.
Proof.
  induction l as [|a l IH]; simpl; [reflexivity|]. now rewrite IH.
Qed.

Lemma cell_ge_not_text (x : Q) (c : cell) :
  not_text c -> cell_ge x c = Ok (ge_bool x c).
Proof.
  destruct c as [[q|s]|]; simpl; intro H; try reflexivity. contradiction.
Qed.

Lemma cell_le_not_text (x : Q) (c : cell) :
  not_text c -> cell_le x c = Ok (le_bool x c).
Proof.
  destruct c as [[q|s]|]; simpl; intro H; try reflexivity. contradiction.
Qed.

Lemma range_bool_spec (lo hi : Q) (c : cell) :
  ge_bool lo c && le_bool hi c = true <-> in_range lo hi c.
Proof.
  unfold in_range. destruct c as [[q|s]|]; simpl.
  - rewrite andb_true_iff, !Qle_bool_iff. split.
    + intros [H1 H2]. exists q. auto.
    + intros [q' [Hq [H1 H2]]]. injection Hq as <-. auto.
  - split; [discriminate|]. intros [q [Hq _]]. discriminate.
  - split; [discriminate|]. intros [q [Hq _]]. discriminate.
Qed.

Lemma query_age_numeric (T : DataFrame) (lo hi : Q) (i : nat) :
  col_pos "age" (columns T) = Some i ->
  (forall r, In r (rows T) -> not_text (cell_at i r)) ->
  query_age T lo hi =
    Ok (mkDF (columns T)
          (filter (fun r => ge_bool lo (cell_at i r) && le_bool hi (cell_at i r))
             (rows T))).
Proof.
  intros Hc Hnum. unfold query_age. rewrite Hc.
  rewrite (mapM_total _ (ge_bool lo)).
  2:{ intros a Ha. apply in_map_iff in Ha as [r [<- Hr]].
      apply cell_ge_not_text. now apply Hnum. }
  simpl.
  rewrite (mapM_total _ (le_bool hi)).
  2:{ intros a Ha. apply in_map_iff in Ha as [r [<- Hr]].
      apply cell_le_not_text. now apply Hnum. }
  simpl. unfold getitem_mask.
  rewrite mask_and_map, map_map, select_rows_map. reflexivity.
Qed.

(** C3 (as amended).  On a table whose age cells hold numbers or nothing,
    the range query returns the rows whose age lies in the closed range
    [[lo, hi]], both bounds included, in their original order and with
    their labels; a row without an age is never kept. *)
Theorem query_age_inclusive (T : DataFrame) (lo hi : Q) (i : nat) :
  col_pos "age" (columns T) = Some i ->
  (forall r, In r (rows T) -> not_text (cell_at i r)) ->
  exists keep : Row -> bool,
    query_age T lo hi = Ok (mkDF (columns T) (filter keep (rows T))) /\
    (forall r, keep r = true <-> in_range lo hi (cell_at i r)) /\
    (forall r, cell_at i r = None -> keep r = false) /\
    (forall r q, cell_at i r = Some (Num q) -> q == lo \/ q == hi ->
       lo <= hi -> keep r = true).
Proof.
  intros Hc Hnum.
  exists (fun r => ge_bool lo (cell_at i r) && le_bool hi (cell_at i r)).
  split; [now apply query_age_numeric|].
  split; [|split].
  - intro r. apply range_bool_spec.
  - intros r Hr. now rewrite Hr.
  - intros r q Hr Hq Hle. apply range_bool_spec. exists q.
    split; [assumption|]. destruct Hq as [Hq|Hq]; rewrite Hq; split;
      try assumption; apply Qle_refl.
Qed.

Lemma query_age_inclusive_witness :
  exists keep : Row -> bool,
    query_age bank_five 30 40 =
      Ok (mkDF (columns bank_five) (filter keep (rows bank_five))) /\
    (forall r, keep r = true <-> in_range 30 40 (cell_at 0 r)).
Proof.
  destruct (query_age_inclusive bank_five 30 40 0 eq_refl) as [keep [H1 [H2 _]]].
  - intros r Hr. simpl in Hr.
    repeat (destruct Hr as [<-|Hr]; [exact I|]). destruct Hr.
  - exists keep. split; assumption.
Defined.

(** C3, as stated, fails on a table whose ages are texts: the query raises
    instead of returning the rows in range. *)
Lemma query_age_text_raises :
  ~ (forall (T : DataFrame) (lo hi : Q) (i : nat),
       col_pos "age" (columns T) = Some i ->
       exists keep : Row -> bool,
         query_age T lo hi = Ok (mkDF (columns T) (filter keep (rows T))) /\
         (forall r, keep r = true <-> in_range lo hi (cell_at i r))).
Proof.
  intro H.
  destruct (H bank_age_text 30 40 0%nat eq_refl) as [keep [Hq _]].
  vm_compute in Hq. discriminate Hq.
Qed.

(** ** The untouched form *)

Lemma Qle_bool_false (x y : Q) : Qle_bool x y = false -> y <= x.
Proof.
  intro H. destruct (Qlt_le_dec y x) as [Hlt|Hle].
  - now apply Qlt_le_weak.
  - apply Qle_bool_iff in Hle. congruence.
Qed.



Lemma In_dropna (s : list cell) (v : scalar) :
  In (Some v) s <-> In v (dropna s).
Proof.
  induction s as [|[w|] t IH]; simpl.
  - tauto.
  - rewrite <- IH. split; intros [H|H]; auto.
    + left. congruence.
    + left. congruence.
  - rewrite <- IH. split; [intros [H|H]; [discriminate | assumption] | auto].
Qed.








(** ** Counting values *)

Lemma scalar_eqb_refl (v : scalar) : scalar_eqb v v = true.
Proof.
  apply scalar_eqb_same. destruct v; simpl; [apply Qeq_refl | reflexivity].
Qed.

Lemma sum_counts_bump (v : scalar) (acc : Series nat) :
  sum_counts (bump v acc) = S (sum_counts acc).
Proof.
  induction acc as [|[k c] t IH]; simpl; [reflexivity|].
  destruct (scalar_eqb k v); simpl; [reflexivity|].
  rewrite IH. lia.
Qed.

Lemma bump_positive (v : scalar) (acc : Series nat) :
  Forall (fun kc => 1 <= snd kc)%nat acc ->
  Forall (fun kc => 1 <= snd kc)%nat (bump v acc).
Proof.
  induction acc as [|[k c] t IH]; simpl; intro H.
  - constructor; [simpl; lia | constructor].
  - inversion H as [|? ? Hc Ht]; subst.
    destruct (scalar_eqb k v); constructor; simpl in *; auto; lia.
Qed.

Lemma bump_keys (v : scalar) (acc : Series nat) (k : scalar) :
  In k (map fst (bump v acc)) -> k = v \/ In k (map fst acc).
Proof.
  induction acc as [|[k' c] t IH]; simpl.
  - intros [H|[]]. now left.
  - destruct (scalar_eqb k' v); simpl; intros [H|H]; auto.
    destruct (IH H); auto.
Qed.

Lemma bump_keeps (v : scalar) (acc : Series nat) (k : scalar) :
  In k (map fst acc) -> In k (map fst (bump v acc)).
Proof.
  induction acc as [|[k' c] t IH]; simpl; [intros []|].
  destruct (scalar_eqb k' v); simpl; intros [H|H]; auto.
Qed.

Lemma bump_counted (v : scalar) (acc : Series nat) :
  exists k, In k (map fst (bump v acc)) /\ same_value k v.
Proof.
  induction acc as [|[k' c] t IH]; simpl.
  - exists v. split; [now left | apply scalar_eqb_same, scalar_eqb_refl].
  - destruct (scalar_eqb k' v) eqn:E; simpl.
    + exists k'. split; [now left | now apply scalar_eqb_same].
    + destruct IH as [k [Hin Hs]]. exists k. split; [now right | assumption].
Qed.

Lemma count_from_sum (l : list scalar) : forall acc,
  sum_counts (count_from acc l) = (sum_counts acc + length l)%nat.
Proof.
  induction l as [|v t IH]; intro acc; simpl; [lia|].
  unfold count_from in *. simpl. rewrite IH, sum_counts_bump. lia.
Qed.

Lemma count_from_positive (l : list scalar) : forall acc,
  Forall (fun kc => 1 <= snd kc)%nat acc ->
  Forall (fun kc => 1 <= snd kc)%nat (count_from acc l).
Proof.
  induction l as [|v t IH]; intros acc H; simpl; [assumption|].
  apply IH. now apply bump_positive.
Qed.

Lemma count_from_keys (l : list scalar) : forall acc k,
  In k (map fst (count_from acc l)) -> In k l \/ In k (map fst acc).
Proof.
  induction l as [|v t IH]; intros acc k H; simpl in *; [now right|].
  destruct (IH _ _ H) as [Ht|Hb]; [now left; right|].
  destruct (bump_keys _ _ _ Hb) as [->|Ha]; [now left; left | now right].
Qed.

Lemma count_from_keeps (l : list scalar) : forall acc k,
  In k (map fst acc) -> In k (map fst (count_from acc l)).
Proof.
  induction l as [|v t IH]; intros acc k H; simpl; [assumption|].
  apply IH. now apply bump_keeps.
Qed.

Lemma count_from_counted (l : list scalar) : forall acc v,
  In v l -> exists k, In k (map fst (count_from acc l)) /\ same_value k v.
Proof.
  induction l as [|w t IH]; intros acc v H; simpl in *; [destruct H|].
  destruct H as [->|H]; [|now apply IH].
  destruct (bump_counted v acc) as [k [Hin Hs]].
  exists k. split; [|assumption]. now apply count_from_keeps.
Qed.

Lemma count_values_sum (s : list cell) :
  sum_counts (count_values s) = length (dropna s).
Proof.
  unfold count_values. now rewrite count_from_sum.
Qed.

Lemma count_values_positive (s : list cell) :
  Forall (fun kc => 1 <= snd kc)%nat (count_values s).
Proof.
  unfold count_values. apply count_from_positive. constructor.
Qed.

Lemma count_values_keys (s : list cell) (k : scalar) :
  In k (map fst (count_values s)) -> In k (dropna s).
Proof.
  unfold count_values. intro H.
  destruct (count_from_keys _ _ _ H) as [H'|[]]. exact H'.
Qed.

Lemma count_values_counted (s : list cell) (v : scalar) :
  In v (dropna s) ->
  exists k, In k (map fst (count_values s)) /\ same_value k v.
Proof.
  unfold count_values. apply count_from_counted.
Qed.

(** Each counted value has one entry. *)

Lemma scalar_eqb_sym (a b : scalar) : scalar_eqb a b = scalar_eqb b a.
Proof.
  destruct a as [p|s], b as [q|t]; simpl; try reflexivity.
  - destruct (Qeq_bool p q) eqn:E1, (Qeq_bool q p) eqn:E2; try reflexivity.
    + apply Qeq_bool_iff, Qeq_sym, Qeq_bool_iff in E1. congruence.
    + apply Qeq_bool_iff, Qeq_sym, Qeq_bool_iff in E2. congruence.
  - apply String.eqb_sym.
Qed.

Lemma scalar_eqb_trans (a b c : scalar) :
  scalar_eqb a b = true -> scalar_eqb b c = true -> scalar_eqb a c = true.
Proof.
  rewrite !scalar_eqb_same.
  destruct a as [p|s], b as [q|t], c as [r|x]; simpl; try tauto.
  - apply Qeq_trans.
  - congruence.
Qed.

Lemma entries_for_bump (w v : scalar) (acc : Series nat) :
  length (entries_for w (bump v acc)) =
    (length (entries_for w acc) +
     if existsb (fun kc => scalar_eqb (fst kc) v) acc then 0
     else if scalar_eqb v w then 1 else 0)%nat.
Proof.
  unfold entries_for.
  induction acc as [|[k c] t IH]; simpl.
  - destruct (scalar_eqb v w); reflexivity.
  - destruct (scalar_eqb k v) eqn:E; simpl.
    + destruct (scalar_eqb k w); simpl; lia.
    + destruct (scalar_eqb k w); simpl; rewrite IH; lia.
Qed.

Lemma bump_one_entry (v : scalar) (acc : Series nat) :
  (forall w, length (entries_for w acc) <= 1)%nat ->
  forall w, (length (entries_for w (bump v acc)) <= 1)%nat.
Proof.
  intros Hacc w. rewrite entries_for_bump.
  destruct (existsb (fun kc => scalar_eqb (fst kc) v) acc) eqn:E.
  - specialize (Hacc w). lia.
  - destruct (scalar_eqb v w) eqn:Evw; [|specialize (Hacc w); lia].
    assert (Hnil : entries_for w acc = []).
    { unfold entries_for.
      destruct (filter (fun kp => scalar_eqb (fst kp) w) acc) as [|kc l] eqn:F;
        [reflexivity|].
      assert (Hin : In kc (filter (fun kp => scalar_eqb (fst kp) w) acc))
        by (rewrite F; now left).
      apply filter_In in Hin as [Hin Hkw].
      assert (Hkv : scalar_eqb (fst kc) v = true).
      { apply scalar_eqb_trans with w; [assumption|].
        now rewrite scalar_eqb_sym. }
      assert (Hex : existsb (fun kc => scalar_eqb (fst kc) v) acc = true)
        by (apply existsb_exists; now exists kc).
      congruence. }
    rewrite Hnil. simpl. lia.
Qed.

Lemma count_from_one_entry (l : list scalar) : forall acc,
  (forall w, length (entries_for w acc) <= 1)%nat ->
  forall w, (length (entries_for w (count_from acc l)) <= 1)%nat.
Proof.
  induction l as [|v t IH]; intros acc H; simpl; [assumption|].
  apply IH. now apply bump_one_entry.
Qed.

Lemma count_values_one_entry (s : list cell) (v : scalar) :
  In v (dropna s) -> length (entries_for v (count_values s)) = 1%nat.
Proof.
  intro Hv.
  assert (Hle : (length (entries_for v (count_values s)) <= 1)%nat).
  { unfold count_values. apply count_from_one_entry. intro w. simpl. lia. }
  destruct (count_values_counted s v Hv) as [k [Hk Hs]].
  apply in_map_iff in Hk as [[k' c] [Hfst Hin]]. simpl in Hfst. subst k'.
  assert (Hin' : In (k, c) (entries_for v (count_values s))).
  { apply filter_In. split; [assumption|]. now apply scalar_eqb_same. }
  destruct (entries_for v (count_values s)); [destruct Hin' | simpl in *; lia].
Qed.

Lemma entries_for_perm {V : Type} (v : scalar) (l l' : Series V) :
  Permutation l l' -> length (entries_for v l) = length (entries_for v l').
Proof.
  unfold entries_for. induction 1 as [|x l l' Hp IH|x y l|l l' l'' Hp1 IH1 Hp2 IH2];
    simpl.
  - reflexivity.
  - destruct (scalar_eqb (fst x) v); simpl; lia.
  - destruct (scalar_eqb (fst x) v), (scalar_eqb (fst y) v); reflexivity.
  - lia.
Qed.

Lemma entries_for_map {V W : Type} (v : scalar) (f : scalar * V -> scalar * W)
    (l : Series V) :
  (forall kv, fst (f kv) = fst kv) ->
  length (entries_for v (map f l)) = length (entries_for v l).
Proof.
  intro Hf. unfold entries_for. induction l as [|x l IH]; simpl; [reflexivity|].
  rewrite Hf. destruct (scalar_eqb (fst x) v); simpl; lia.
Qed.

(** ** The two orderings *)

Lemma insert_count_perm (kc : scalar * nat) (l : Series nat) :
  Permutation (insert_count kc l) (kc :: l).
Proof.
  induction l as [|h t IH]; simpl; [reflexivity|].
  destruct (snd h <=? snd kc)%nat; [reflexivity|].
  rewrite IH. apply perm_swap.
Qed.

Lemma sort_counts_perm (l : Series nat) : Permutation (sort_counts l) l.
Proof.
  induction l as [|h t IH]; simpl; [reflexivity|].
  rewrite insert_count_perm. now constructor.
Qed.

Lemma sum_counts_perm (l l' : Series nat) :
  Permutation l l' -> sum_counts l = sum_counts l'.
Proof.
  induction 1; simpl; lia.
Qed.

Lemma insert_key_perm {V : Type} (kv : scalar * V) (l : list (scalar * V)) :
  (forall h, In h l -> exists r, scalar_leb (fst kv) (fst h) = Ok r) ->
  exists l', insert_key kv l = Ok l' /\ Permutation l' (kv :: l).
Proof.
  induction l as [|h t IH]; intro Hcmp; simpl.
  - exists [kv]. split; reflexivity.
  - destruct (Hcmp h (or_introl eq_refl)) as [r Hr]. rewrite Hr. simpl.
    destruct r.
    + exists (kv :: h :: t). split; reflexivity.
    + destruct IH as [t' [Ht' Hp]].
      { intros x Hx. apply Hcmp. now right. }
      rewrite Ht'. simpl. exists (h :: t'). split; [reflexivity|].
      rewrite Hp. apply perm_swap.
Qed.

Lemma sort_keys_perm {V : Type} (l : list (scalar * V)) :
  (forall x y, In x l -> In y l -> exists r, scalar_leb (fst x) (fst y) = Ok r) ->
  exists l', sort_keys l = Ok l' /\ Permutation l' l.
Proof.
  induction l as [|h t IH]; intro Hcmp; simpl.
  - exists []. split; reflexivity.
  - destruct IH as [t' [Ht' Hp]].
    { intros x y Hx Hy. apply Hcmp; now right. }
    rewrite Ht'. simpl.
    destruct (insert_key_perm h t') as [l' [Hl' Hp']].
    { intros x Hx. apply Hcmp; [now left|].
      right. now apply (Permutation_in _ Hp). }
    exists l'. split; [assumption|]. rewrite Hp'. now constructor.
Qed.

Lemma one_kind_comparable (l : list scalar) (a b : scalar) :
  one_kind l -> In a l -> In b l -> exists r, scalar_leb a b = Ok r.
Proof.
  intros [H|H] Ha Hb; destruct (H a Ha) as [x ->], (H b Hb) as [y ->];
    simpl; eauto.
Qed.

(** ** Rounded percentages *)

Lemma Qnat_plus (a b : nat) : Qnat (a + b) == Qnat a + Qnat b.
Proof.
  unfold Qnat. rewrite Nat2Z.inj_add, inject_Z_plus. reflexivity.
Qed.

Lemma Qnat_le (a b : nat) : (a <= b)%nat -> Qnat a <= Qnat b.
Proof.
  intro H. unfold Qnat. rewrite <- Zle_Qle. lia.
Qed.

Lemma Qnat_pos (n : nat) : (1 <= n)%nat -> 0 < Qnat n.
Proof.
  intro H. unfold Qnat. change 0 with (inject_Z 0). rewrite <- Zlt_Qlt. lia.
Qed.

Lemma share_bounds (n : nat) (kc : scalar * nat) :
  (1 <= snd kc)%nat -> (snd kc <= n)%nat -> (Z.of_nat n <= two53)%Z ->
  u64 <= share n kc /\ share n kc <= 1.
Proof.
  intros Hc Hn Hbig. unfold share.
  assert (Hpos : 0 < Qnat n) by (apply Qnat_pos; lia).
  split.
  - apply Qle_shift_div_l; [assumption|].
    apply Qle_trans with 1.
    + assert (Hq : Qnat n <= inject_Z two53)
        by (unfold Qnat; now rewrite <- Zle_Qle).
      change (inject_Z two53) with (9007199254740992 # 1) in Hq.
      unfold u64. lra.
    + change 1 with (Qnat 1). now apply Qnat_le.
  - apply Qle_shift_div_r; [assumption|].
    rewrite Qmult_1_l. now apply Qnat_le.
Qed.

Lemma share_sum (n : nat) (l : Series nat) :
  Qsum (map (share n) l) == Qnat (sum_counts l) / Qnat n.
Proof.
  induction l as [|kc t IH]; simpl.
  - unfold Qdiv. change (Qnat 0) with 0. ring.
  - rewrite IH, Qnat_plus. unfold share, Qdiv. ring.
Qed.

Lemma share_sum_total (l : Series nat) :
  (1 <= sum_counts l)%nat -> Qsum (map (share (sum_counts l)) l) == 1.
Proof.
  intro H. rewrite share_sum. unfold Qdiv. apply Qmult_inv_r.
  apply Qnat_pos in H. intro E. rewrite E in H. now apply Qlt_irrefl in H.
Qed.

Lemma count_le_sum (l : Series nat) (kc : scalar * nat) :
  In kc l -> (snd kc <= sum_counts l)%nat.
Proof.
  induction l as [|h t IH]; simpl; [intros []|].
  intros [->|H]; [lia|]. apply IH in H. lia.
Qed.

Lemma Qsum_perm (l l' : list Q) : Permutation l l' -> Qsum l == Qsum l'.
Proof.
  induction 1; simpl.
  - reflexivity.
  - now rewrite IHPermutation.
  - ring.
  - now rewrite IHPermutation1.
Qed.

Section Proportions.

Variable fl : Q -> Q.
Hypothesis fl_rounds : rounding fl.

Lemma percent_of_share (x : Q) :
  u64 <= x -> x <= 1 ->
  0 <= fl (fl x * 100) /\ fl (fl x * 100) <= 100 /\
  - ((1 # 1000000) * x) <= fl (fl x * 100) - 100 * x /\
  fl (fl x * 100) - 100 * x <= (1 # 1000000) * x.
Proof.
  intros Hlo Hhi.
  assert (Hx100 : x <= 100) by lra.
  pose proof (fl_error fl fl_rounds x Hlo Hx100) as E1.
  apply Qabs_Qle_condition in E1. destruct E1 as [E1a E1b].
  pose proof (fl_monotone fl fl_rounds x 1 Hhi) as M1.
  rewrite (fl_one fl fl_rounds) in M1.
  unfold u64 in *.
  assert (Ha : (1 # 9007199254740992) <= fl x * 100) by lra.
  assert (Hb : fl x * 100 <= 100) by lra.
  pose proof (fl_error fl fl_rounds _ Ha Hb) as E2. unfold u64 in E2.
  apply Qabs_Qle_condition in E2. destruct E2 as [E2a E2b].
  pose proof (fl_monotone fl fl_rounds _ 100 Hb) as M2.
  rewrite (fl_hundred fl fl_rounds) in M2.
  repeat split; lra.
Qed.

Lemma percent_sum_error (n : nat) (l : Series nat) :
  (Z.of_nat n <= two53)%Z ->
  Forall (fun kc => 1 <= snd kc /\ snd kc <= n)%nat l ->
  Forall (fun kc => 0 <= percent fl n kc /\ percent fl n kc <= 100) l /\
  - ((1 # 1000000) * Qsum (map (share n) l)) <=
      Qsum (map (percent fl n) l) - 100 * Qsum (map (share n) l) /\
  Qsum (map (percent fl n) l) - 100 * Qsum (map (share n) l) <=
      (1 # 1000000) * Qsum (map (share n) l).
Proof.
  intros Hbig. induction 1 as [|kc t [Hc Hn] Ht [IH1 [IH2 IH3]]]; simpl.
  - split; [constructor | split; lra].
  - destruct (share_bounds n kc Hc Hn Hbig) as [Hlo Hhi].
    destruct (percent_of_share _ Hlo Hhi) as [P1 [P2 [P3 P4]]].
    fold (percent fl n kc) in P1, P2, P3, P4.
    split; [constructor; [split|]; assumption | split; lra].
Qed.

Lemma percent_sum_total (l : Series nat) :
  (1 <= sum_counts l)%nat ->
  (Z.of_nat (sum_counts l) <= two53)%Z ->
  Forall (fun kc => 1 <= snd kc)%nat l ->
  Forall (fun kc => 0 <= percent fl (sum_counts l) kc /\
                    percent fl (sum_counts l) kc <= 100) l /\
  Qabs (Qsum (map (percent fl (sum_counts l)) l) - 100) <= 1 # 1000000.
Proof.
  intros Hpos Hbig Hall.
  destruct (percent_sum_error (sum_counts l) l Hbig) as [H1 [H2 H3]].
  { rewrite Forall_forall in *. intros kc Hin. split; [now apply Hall|].
    now apply count_le_sum. }
  split; [assumption|].
  pose proof (share_sum_total l Hpos) as Hone.
  apply Qabs_Qle_condition. rewrite Hone in H2, H3. split; lra.
Qed.

End Proportions.

(** ** The proportion table *)

Lemma times100_percent (fl : Q -> Q) (y : list cell) :
  map snd (times100 fl (value_counts_normalize fl y)) =
    map (percent fl (sum_counts (sort_counts (count_values y))))
      (sort_counts (count_values y)).
Proof.
  unfold times100, value_counts_normalize. rewrite !map_map. reflexivity.
Qed.

Lemma target_perc_sorted (fl : Q -> Q) (T : DataFrame) (y : list cell) :
  getitem_col T "y" = Ok y ->
  one_kind (dropna y) ->
  exists S,
    target_perc fl T = Ok S /\
    Permutation S (times100 fl (value_counts_normalize fl y)).
Proof.
  intros Hy Hkind. unfold target_perc. rewrite Hy. simpl. unfold sort_index.
  destruct (sort_keys_perm (value_counts_normalize fl y)) as [l' [Hl' Hp]].
  - intros a b Ha Hb. apply (one_kind_comparable (dropna y)); [assumption| |];
      apply count_values_keys;
      apply (Permutation_in _ (Permutation_map fst (sort_counts_perm _)));
      unfold value_counts_normalize in *;
      [apply (in_map fst) in Ha | apply (in_map fst) in Hb];
      rewrite map_map in *; assumption.
  - rewrite Hl'. simpl. exists (times100 fl l'). split; [reflexivity|].
    unfold times100. now apply Permutation_map.
Qed.

Lemma target_perc_one_entry (fl : Q -> Q) (y : list cell) (S : Series Q)
    (v : scalar) :
  Permutation S (times100 fl (value_counts_normalize fl y)) ->
  In v (dropna y) ->
  length (entries_for v S) = 1%nat.
Proof.
  intros Hp Hv. rewrite (entries_for_perm v _ _ Hp).
  unfold times100, value_counts_normalize.
  rewrite !entries_for_map by reflexivity.
  rewrite (entries_for_perm v _ _ (sort_counts_perm _)).
  now apply count_values_one_entry.
Qed.

(** C4 (as amended).  With binary64 rounding, on a table of at most 2^53
    rows whose [y] holds at least one value and values of one kind only,
    the proportion table exists, has exactly one entry for every value
    that occurs in [y], every percentage lies between 0 and 100, and the
    percentages add up to 100 within 1e-6. *)
Theorem target_perc_sums_to_100 (fl : Q -> Q) (T : DataFrame) (y : list cell) :
  rounding fl ->
  getitem_col T "y" = Ok y ->
  dropna y <> [] ->
  one_kind (dropna y) ->
  (Z.of_nat (length y) <= two53)%Z ->
  exists S,
    target_perc fl T = Ok S /\
    (forall v, In (Some v) y ->
       exists k p, entries_for v S = [(k, p)] /\ same_value k v) /\
    Forall (fun kp => 0 <= snd kp /\ snd kp <= 100) S /\
    Qabs (Qsum (map snd S) - 100) <= 1 # 1000000.
Proof.
  intros Hfl Hy Hsome Hkind Hbig.
  destruct (target_perc_sorted fl T y Hy Hkind) as [S [HS Hp]].
  exists S. split; [assumption|].
  pose proof (sort_counts_perm (count_values y)) as Hsc.
  assert (Hn : sum_counts (sort_counts (count_values y)) = length (dropna y))
    by (rewrite (sum_counts_perm _ _ Hsc); apply count_values_sum).
  assert (Hlen : (length (dropna y) <= length y)%nat).
  { clear. induction y as [|[v|] t IH]; simpl; lia. }
  destruct (percent_sum_total fl Hfl (sort_counts (count_values y)))
    as [Hrange Hsum].
  { rewrite Hn. destruct (dropna y); [congruence | simpl; lia]. }
  { rewrite Hn. lia. }
  { apply (Permutation_Forall (Permutation_sym Hsc)), count_values_positive. }
  rewrite <- times100_percent in Hsum.
  split; [|split].
  - intros v Hv. apply In_dropna in Hv.
    pose proof (target_perc_one_entry fl y S v Hp Hv) as Hone.
    destruct (entries_for v S) as [|[k p] [|kp l]] eqn:E; try discriminate Hone.
    exists k, p. split; [reflexivity|].
    assert (Hin : In (k, p) (entries_for v S)) by (rewrite E; now left).
    apply filter_In in Hin as [_ Hk]. now apply scalar_eqb_same.
  - assert (Hall : Forall (fun p => 0 <= p /\ p <= 100) (map snd S)).
    { apply (Permutation_Forall (Permutation_sym (Permutation_map snd Hp))).
      rewrite times100_percent. rewrite Forall_map. exact Hrange. }
    rewrite Forall_map in Hall. exact Hall.
  - rewrite (Qsum_perm _ _ (Permutation_map snd Hp)). exact Hsum.
Qed.

Lemma exact_rounding : rounding exact.
Proof.
  constructor; unfold exact.
  - intros x Hlo Hhi. apply Qabs_Qle_condition. unfold u64 in *. split; lra.
  - auto.
  - reflexivity.
  - reflexivity.
Qed.

Lemma target_perc_sums_to_100_witness :
  exists S,
    target_perc exact bank_five = Ok S /\
    Qabs (Qsum (map snd S) - 100) <= 1 # 1000000.
Proof.
  destruct (target_perc_sums_to_100 exact bank_five
              (map (cell_at 9) (rows bank_five)) exact_rounding eq_refl)
    as [S [HS [_ [_ Hsum]]]].
  - simpl. discriminate.
  - right. simpl. intros v Hv.
    repeat (destruct Hv as [<-|Hv]; [eexists; reflexivity|]). destruct Hv.
  - vm_compute. discriminate.
  - exists S. split; assumption.
Defined.

(** C4, as stated, fails on a table with rows whose [y] was never
    recorded: the proportion table is empty and its percentages add up to 0. *)
Lemma target_perc_empty_not_100 :
  ~ (forall (fl : Q -> Q) (T : DataFrame) (S : Series Q),
       rows T <> [] ->
       target_perc fl T = Ok S ->
       Qabs (Qsum (map snd S) - 100) <= 1 # 1000000).
Proof.
  intro H.
  specialize (H exact bank_y_missing [] ltac:(discriminate) eq_refl).
  vm_compute in H. now apply H.
Qed.

(** A [y] that mixes a text and a number cannot be put in order: no
    proportion table is produced. *)
Lemma target_perc_mixed_raises :
  target_perc exact bank_y_mixed = Raise TypeError.
Proof. reflexivity. Qed.

(** C10.  When every cell of [y] is missing, nothing is counted, the
    denominator is zero and the proportion table is empty: no category,
    percentages adding up to 0. *)
Theorem target_perc_all_missing (fl : Q -> Q) (T : DataFrame) (y : list cell) :
  getitem_col T "y" = Ok y ->
  (forall c, In c y -> c = None) ->
  sum_counts (count_values y) = 0%nat /\
  exists S, target_perc fl T = Ok S /\ S = [] /\ Qsum (map snd S) == 0.
Proof.
  intros Hy Hnone.
  assert (Hdrop : dropna y = []).
  { clear Hy. induction y as [|c t IH]; [reflexivity|].
    rewrite (Hnone c (or_introl eq_refl)). simpl. apply IH.
    intros c' Hc'. apply Hnone. now right. }
  split.
  - rewrite count_values_sum, Hdrop. reflexivity.
  - exists []. unfold target_perc. rewrite Hy. simpl.
    unfold value_counts_normalize, count_values. rewrite Hdrop. simpl.
    repeat split; reflexivity.
Qed.

Lemma target_perc_all_missing_witness :
  rows bank_y_missing <> [] /\
  exists S, target_perc exact bank_y_missing = Ok S /\ S = [] /\
            Qsum (map snd S) == 0.
Proof.
  split; [discriminate|].
  apply (target_perc_all_missing exact bank_y_missing
           (map (cell_at 9) (rows bank_y_missing)) eq_refl).
  simpl. intros c Hc.
  repeat (destruct Hc as [<-|Hc]; [reflexivity|]). destruct Hc.
Defined.

(** ** The fallback to the original proportions *)

Lemma ui_bind_lift_ok {A B : Type} (a : A) (f : A -> ui B) :
  ui_bind (lift (Ok a)) f = f a.
Proof.
  unfold ui_bind, lift. simpl. now destruct (f a).
Qed.

Lemma ui_bind_show {B : Type} (e : ui_event) (f : unit -> ui B) :
  ui_bind (show e) f = (e :: fst (f tt), snd (f tt)).
Proof.
  unfold ui_bind, show. now destruct (f tt).
Qed.

Lemma after_filters_fallback (fl : Q -> Q) (bank_raw bank : DataFrame)
    (w : Widgets) (S : Series Q) :
  apply_filters bank_raw w = Ok bank ->
  empty bank = true ->
  target_perc fl bank_raw = Ok S ->
  after_filters fl bank_raw w =
    ([warning_no_row_matches; info_using_original_proportion],
     Ok (mkReport bank S S)).
Proof.
  intros Hf He Hs. unfold after_filters.
  rewrite Hf, ui_bind_lift_ok, He, ui_bind_show, Hs, ui_bind_lift_ok.
  rewrite ui_bind_show. reflexivity.
Qed.

(** C5.  When the upload loads, the checks pass and the filters leave no
    row, the run reports for the filtered side the proportion table of the
    original table, and tells so: it shows the warning that no row matches
    and the note that the original proportion is used. *)
Theorem main_falls_back_to_original
    (read_csv : string -> stream -> result DataFrame * stream)
    (read_excel : stream -> result DataFrame * stream)
    (fl : Q -> Q) (int_of_text : string -> result Z)
    (file : stream) (w : Widgets) (bank_raw bank : DataFrame)
    (shown : list ui_event) (bounds : Z * Z) (S : Series Q) :
  outcome (load_data read_csv read_excel file) = Ok bank_raw ->
  before_filters int_of_text bank_raw = (shown, Ok bounds) ->
  apply_filters bank_raw w = Ok bank ->
  empty bank = true ->
  target_perc fl bank_raw = Ok S ->
  main read_csv read_excel fl int_of_text (Some file) w =
    (shown ++ [warning_no_row_matches; info_using_original_proportion],
     Ok (Some (mkReport bank S S))) /\
  In info_using_original_proportion
    (fst (main read_csv read_excel fl int_of_text (Some file) w)).
Proof.
  intros Hload Hbefore Hf He Hs.
  assert (Hmain : main read_csv read_excel fl int_of_text (Some file) w =
            (shown ++ [warning_no_row_matches; info_using_original_proportion],
             Ok (Some (mkReport bank S S)))).
  { unfold main. rewrite Hload, ui_bind_lift_ok, Hbefore.
    rewrite (after_filters_fallback fl bank_raw bank w S Hf He Hs).
    reflexivity. }
  split; [exact Hmain|].
  rewrite Hmain. simpl. apply in_or_app. right. right. now left.
Qed.

Lemma main_falls_back_to_original_witness :
  exists shown,
    main reads_five binary_read_excel exact int_rejects (Some five_file)
      no_job_selected =
    (shown ++ [warning_no_row_matches; info_using_original_proportion],
     Ok (Some (mkReport (mkDF required_cols [])
                 [(Str "no", 300 # 5); (Str "yes", 200 # 5)]
                 [(Str "no", 300 # 5); (Str "yes", 200 # 5)]))).
Proof.
  exists [dataframe (head 50 bank_five)].
  apply (main_falls_back_to_original reads_five binary_read_excel exact
           int_rejects five_file no_job_selected bank_five
           (mkDF required_cols []) [dataframe (head 50 bank_five)] (25, 45)%Z).
  - reflexivity.
  - reflexivity.
  - reflexivity.
  - reflexivity.
  - reflexivity.
Defined.

(** ** The loader *)

(** C6 (as amended).  The loader first reads the file as text separated
    by semicolons, from where the file stands.  If that succeeds the table
    is returned and nothing else is done.  If it raises, the file is
    rewound to its start and read as a workbook from there, and whatever
    that second reader returns or raises is the outcome of the loader: when
    both readers fail, the error of the workbook reader reaches the caller
    as it is, and no third reader is tried. *)
Theorem load_data_two_attempts
    (read_csv : string -> stream -> result DataFrame * stream)
    (read_excel : stream -> result DataFrame * stream) (file : stream) :
  let first := read_csv ";" file in
  let rewound := seek (snd first) 0 in
  let second := read_excel rewound in
  let loaded := load_data read_csv read_excel file in
  position rewound = 0%nat /\
  content rewound = content (snd first) /\
  (forall df, fst first = Ok df ->
     outcome loaded = Ok df /\
     calls loaded = [call_read_csv ";" (position file)]) /\
  (forall e, fst first = Raise e ->
     outcome loaded = fst second /\
     calls loaded =
       [call_read_csv ";" (position file); call_seek 0; call_read_excel 0]) /\
  (forall e1 e2, fst first = Raise e1 -> fst second = Raise e2 ->
     outcome loaded = Raise e2).
Proof.
  cbv zeta. unfold load_data.
  destruct (read_csv ";" file) as [r f1] eqn:E1. simpl.
  split; [reflexivity|]. split; [reflexivity|].
  destruct (read_excel (seek f1 0)) as [r2 f3] eqn:E2.
  split; [|split].
  - intros df ->. split; reflexivity.
  - intros e ->. split; reflexivity.
  - intros e1 e2 -> H. simpl in *. exact H.
Qed.

Lemma load_data_two_attempts_witness :
  outcome (load_data binary_read_csv binary_read_excel not_text_file) =
    Raise ValueError /\
  calls (load_data binary_read_csv binary_read_excel not_text_file) =
    [call_read_csv ";" 0; call_seek 0; call_read_excel 0].
Proof.
  destruct (load_data_two_attempts binary_read_csv binary_read_excel
              not_text_file) as [_ [_ [_ [Hraise Hboth]]]].
  split.
  - apply (Hboth UnicodeDecodeError ValueError); reflexivity.
  - apply (Hraise UnicodeDecodeError). reflexivity.
Defined.

(** C6, as stated, fails: there is no single error that the loader
    surfaces whenever both readers fail.  An upload that is not text ends
    in the [ValueError] of the workbook reader, a broken archive in its
    [BadZipFile]. *)
Lemma load_data_no_single_error :
  ~ (exists unsupported : exn,
       forall (read_csv : string -> stream -> result DataFrame * stream)
              (read_excel : stream -> result DataFrame * stream)
              (file : stream) (e1 e2 : exn),
         fst (read_csv ";" file) = Raise e1 ->
         fst (read_excel (seek (snd (read_csv ";" file)) 0)) = Raise e2 ->
         outcome (load_data read_csv read_excel file) = Raise unsupported).
Proof.
  intros [unsupported H].
  pose proof (H binary_read_csv binary_read_excel not_text_file
                UnicodeDecodeError ValueError eq_refl eq_refl) as H1.
  pose proof (H binary_read_csv binary_read_excel broken_zip_file
                UnicodeDecodeError BadZipFile eq_refl eq_refl) as H2.
  vm_compute in H1, H2. congruence.
Qed.

(** * Further properties *)

(** ** The categorical filter, alone and repeated *)




Lemma multiselect_filter_cases (T : DataFrame) (c : string) (s : list scalar) :
  (py_in (Str "all") s = true /\ multiselect_filter T c s = Ok T) \/
  (py_in (Str "all") s = false /\ col_pos c (columns T) = None /\
   multiselect_filter T c s = Raise KeyError) \/
  (exists i, py_in (Str "all") s = false /\ col_pos c (columns T) = Some i /\
     multiselect_filter T c s =
       Ok (mkDF (columns T)
             (relabel 0 (filter (fun r => isin_cell s (cell_at i r)) (rows T))))).
Proof.
  destruct (py_in (Str "all") s) eqn:E.
  - left. split; [reflexivity|]. apply multiselect_filter_all. now apply py_in_all.
  - right. destruct (col_pos c (columns T)) as [i|] eqn:Hc.
    + right. exists i. repeat split.
      apply multiselect_filter_restrict; [|assumption].
      intro H. apply py_in_all in H. congruence.
    + left. repeat split. unfold multiselect_filter, getitem_col.
      now rewrite E, Hc.
Qed.

(** X1.  The categorical filter raises exactly when the selection does not
    hold "all" and the table has no such column, and what it raises then is
    [KeyError]; with "all" in the selection the column is never looked up. *)
Theorem multiselect_filter_raises (T : DataFrame) (c : string)
    (s : list scalar) (e : exn) :
  multiselect_filter T c s = Raise e <->
  e = KeyError /\ ~ In (Str "all") s /\ col_pos c (columns T) = None.
Proof.
  destruct (multiselect_filter_cases T c s)
    as [[Ha H]|[[Ha [Hc H]]|[i [Ha [Hc H]]]]]; rewrite H; split.
  - discriminate.
  - intros [_ [Hn _]]. exfalso. apply Hn. now apply py_in_all.
  - intro He. injection He as <-. repeat split; [|assumption].
    intro Hin. apply py_in_all in Hin. congruence.
  - intros [-> _]. reflexivity.
  - discriminate.
  - intros [_ [_ Hn]]. congruence.
Qed.

Lemma multiselect_filter_raises_witness :
  multiselect_filter bank_two_absent "loan" [Str "yes"] = Raise KeyError /\
  multiselect_filter bank_two_absent "loan" [Str "yes"; Str "all"] =
    Ok bank_two_absent.
Proof.
  split; [|reflexivity].
  apply (multiselect_filter_raises bank_two_absent "loan" [Str "yes"] KeyError).
  repeat split.
  intros [H|[]]. discriminate H.
Defined.




(** ** The range query *)

Lemma filter_incl_weaker {A : Type} (p q : A -> bool) (l : list A) (a : A) :
  (forall x, p x = true -> q x = true) ->
  In a (filter p l) -> In a (filter q l).
Proof.
  intros Hpq Ha. apply filter_In in Ha as [Hin Hp].
  apply filter_In. split; [assumption | now apply Hpq].
Qed.

(** X4.  On numeric-or-missing ages, widening the range never loses a
    row: every row kept for [[lo, hi]] is kept for any range that contains
    it; and a range whose lower bound exceeds its upper bound keeps no row. *)
Theorem query_age_monotone (T : DataFrame) (i : nat) (lo hi lo' hi' : Q) :
  col_pos "age" (columns T) = Some i ->
  (forall r, In r (rows T) -> not_text (cell_at i r)) ->
  exists F F',
    query_age T lo hi = Ok F /\ query_age T lo' hi' = Ok F' /\
    (lo' <= lo -> hi <= hi' -> forall r, In r (rows F) -> In r (rows F')) /\
    (hi < lo -> rows F = []).
Proof.
  intros Hc Hnum.
  rewrite (query_age_numeric T lo hi i Hc Hnum).
  rewrite (query_age_numeric T lo' hi' i Hc Hnum).
  do 2 eexists. split; [reflexivity|]. split; [reflexivity|]. simpl. split.
  - intros Hlo Hhi r. apply filter_incl_weaker. intros x Hx.
    apply range_bool_spec in Hx as [q [Hq [H1 H2]]].
    apply range_bool_spec. exists q. split; [assumption|].
    split; [now apply Qle_trans with lo | now apply Qle_trans with hi].
  - intro Hinv.
    destruct (filter _ (rows T)) as [|r l] eqn:E; [reflexivity|].
    assert (Hin : In r (filter (fun r => ge_bool lo (cell_at i r)
                                         && le_bool hi (cell_at i r)) (rows T)))
      by (rewrite E; now left).
    apply filter_In in Hin as [_ Hr].
    apply range_bool_spec in Hr as [q [_ [H1 H2]]].
    exfalso. apply (Qlt_irrefl hi).
    apply Qlt_le_trans with lo; [assumption | now apply Qle_trans with q].
Qed.

Lemma query_age_monotone_witness :
  exists F F',
    query_age bank_five 30 40 = Ok F /\ query_age bank_five 25 45 = Ok F' /\
    (forall r, In r (rows F) -> In r (rows F')).
Proof.
  destruct (query_age_monotone bank_five 0 30 40 25 45 eq_refl)
    as [F [F' [H1 [H2 [Hm _]]]]].
  - intros r Hr. simpl in Hr.
    repeat (destruct Hr as [<-|Hr]; [exact I|]). destruct Hr.
  - exists F, F'. split; [assumption|]. split; [assumption|].
    apply Hm; vm_compute; discriminate.
Defined.

(** ** The filter chain as one conjunction *)

Lemma col_pos_In (c : string) (cols : list string) :
  In c cols -> exists i, col_pos c cols = Some i.
Proof.
  induction cols as [|h t IH]; simpl; [intros []|].
  intro H. destruct (String.eqb h c) eqn:E; [now exists 0%nat|].
  destruct H as [H|H]; [subst; rewrite String.eqb_refl in E; discriminate|].
  destruct (IH H) as [i Hi]. rewrite Hi. now exists (S i).
Qed.

Lemma absent_required_nil (bank : DataFrame) (c : string) :
  absent_required bank = [] -> In c required_cols ->
  exists i, col_pos c (columns bank) = Some i.
Proof.
  intros Habs Hc. apply col_pos_In.
  assert (Hnot : ~ In c (absent_required bank)) by (rewrite Habs; intros []).
  unfold absent_required in Hnot. rewrite filter_In in Hnot.
  destruct (existsb (String.eqb c) (columns bank)) eqn:E.
  - apply existsb_exists in E as [x [Hx Heq]].
    apply String.eqb_eq in Heq. now subst.
  - exfalso. apply Hnot. split; [assumption | reflexivity].
Qed.

Lemma filter_values (q : list cell -> bool) (l : list Row) :
  map values (filter (fun r => q (values r)) l) = filter q (map values l).
Proof.
  induction l as [|r l IH]; simpl; [reflexivity|].
  destruct (q (values r)); simpl; now rewrite IH.
Qed.

Lemma filter_filter {A : Type} (f g : A -> bool) (l : list A) :
  filter f (filter g l) = filter (fun x => g x && f x) l.
Proof.
  induction l as [|a l IH]; simpl; [reflexivity|].
  destruct (g a); simpl; [destruct (f a)|]; now rewrite IH.
Qed.

Lemma chain_step (cols : list string) (F0 F : DataFrame)
    (q : list cell -> bool) (vals0 : list (list cell)) (flag : bool)
    (c : string) (s : list scalar) :
  columns F = cols ->
  (exists i, col_pos c cols = Some i) ->
  map values (rows F) = filter q vals0 ->
  (flag = true -> map label (rows F) = seq 0 (length (rows F))) ->
  (flag = false -> F = F0) ->
  exists F',
    multiselect_filter F c s = Ok F' /\
    columns F' = cols /\
    map values (rows F') = filter (fun vs => q vs && chosen cols c s vs) vals0 /\
    (flag || negb (py_in (Str "all") s) = true ->
       map label (rows F') = seq 0 (length (rows F'))) /\
    (flag || negb (py_in (Str "all") s) = false -> F' = F0).
Proof.
  intros Hcols [i Hi] Hvals Hlab Hsame. subst cols.
  destruct (multiselect_filter_cases F c s)
    as [[Ha H]|[[Ha [Hc H]]|[j [Ha [Hc H]]]]]; rewrite H.
  - exists F. split; [reflexivity|]. split; [reflexivity|]. rewrite Ha. split.
    + rewrite Hvals. apply filter_ext. intro vs. unfold chosen.
      rewrite Ha. simpl. now rewrite andb_true_r.
    + rewrite orb_false_r. split; assumption.
  - congruence.
  - rewrite Hi in Hc. injection Hc as <-.
    eexists. split; [reflexivity|]. simpl. split; [reflexivity|]. split.
    + rewrite relabel_values.
      rewrite (filter_values (fun vs => isin_cell s (nth i vs None))).
      rewrite Hvals, filter_filter. apply filter_ext. intro vs.
      unfold chosen, value_at. now rewrite Ha, Hi.
    + rewrite Ha, orb_true_r. split; [|discriminate].
      intros _. now rewrite relabel_labels, relabel_length.
Qed.

Lemma chain_after_query (T F0 : DataFrame) (w : Widgets) (lo hi : Q) :
  absent_required T = [] ->
  columns F0 = columns T ->
  map values (rows F0) =
    filter (age_between (columns T) lo hi) (map values (rows T)) ->
  exists F,
    (b1 <- multiselect_filter F0 "job" (jobs_selected w) ;;
     b2 <- multiselect_filter b1 "marital" (marital_selected w) ;;
     b3 <- multiselect_filter b2 "default" (default_selected w) ;;
     b4 <- multiselect_filter b3 "housing" (housing_selected w) ;;
     b5 <- multiselect_filter b4 "loan" (loan_selected w) ;;
     b6 <- multiselect_filter b5 "contact" (contact_selected w) ;;
     b7 <- multiselect_filter b6 "month" (month_selected w) ;;
     multiselect_filter b7 "day_of_week" (day_of_week_selected w)) = Ok F /\
    columns F = columns T /\
    map values (rows F) =
      filter (fun vs =>
                age_between (columns T) lo hi vs
                && chosen (columns T) "job" (jobs_selected w) vs
                && chosen (columns T) "marital" (marital_selected w) vs
                && chosen (columns T) "default" (default_selected w) vs
                && chosen (columns T) "housing" (housing_selected w) vs
                && chosen (columns T) "loan" (loan_selected w) vs
                && chosen (columns T) "contact" (contact_selected w) vs
                && chosen (columns T) "month" (month_selected w) vs
                && chosen (columns T) "day_of_week" (day_of_week_selected w) vs)
        (map values (rows T)) /\
    (restrictive w = true -> map label (rows F) = seq 0 (length (rows F))) /\
    (restrictive w = false -> F = F0).
Proof.
  intros Habs Hcols Hvals.
  assert (Hcol : forall c, In c required_cols ->
            exists i, col_pos c (columns T) = Some i)
    by (intros c Hc; now apply absent_required_nil).
  destruct (chain_step (columns T) F0 F0 _ _ false "job" (jobs_selected w)
              Hcols (Hcol "job" ltac:(simpl; tauto)) Hvals
              ltac:(discriminate) ltac:(reflexivity))
    as [b1 [E1 [C1 [V1 [L1 S1]]]]].
  destruct (chain_step (columns T) F0 b1 _ _ _ "marital" (marital_selected w)
              C1 (Hcol "marital" ltac:(simpl; tauto)) V1 L1 S1)
    as [b2 [E2 [C2 [V2 [L2 S2]]]]].
  destruct (chain_step (columns T) F0 b2 _ _ _ "default" (default_selected w)
              C2 (Hcol "default" ltac:(simpl; tauto)) V2 L2 S2)
    as [b3 [E3 [C3 [V3 [L3 S3]]]]].
  destruct (chain_step (columns T) F0 b3 _ _ _ "housing" (housing_selected w)
              C3 (Hcol "housing" ltac:(simpl; tauto)) V3 L3 S3)
    as [b4 [E4 [C4 [V4 [L4 S4]]]]].
  destruct (chain_step (columns T) F0 b4 _ _ _ "loan" (loan_selected w)
              C4 (Hcol "loan" ltac:(simpl; tauto)) V4 L4 S4)
    as [b5 [E5 [C5 [V5 [L5 S5]]]]].
  destruct (chain_step (columns T) F0 b5 _ _ _ "contact" (contact_selected w)
              C5 (Hcol "contact" ltac:(simpl; tauto)) V5 L5 S5)
    as [b6 [E6 [C6 [V6 [L6 S6]]]]].
  destruct (chain_step (columns T) F0 b6 _ _ _ "month" (month_selected w)
              C6 (Hcol "month" ltac:(simpl; tauto)) V6 L6 S6)
    as [b7 [E7 [C7 [V7 [L7 S7]]]]].
  destruct (chain_step (columns T) F0 b7 _ _ _ "day_of_week"
              (day_of_week_selected w)
              C7 (Hcol "day_of_week" ltac:(simpl; tauto)) V7 L7 S7)
    as [b8 [E8 [C8 [V8 [L8 S8]]]]].
  exists b8. unfold bind at 1. rewrite E1. unfold bind at 1. rewrite E2.
  unfold bind at 1. rewrite E3. unfold bind at 1. rewrite E4.
  unfold bind at 1. rewrite E5. unfold bind at 1. rewrite E6.
  unfold bind at 1. rewrite E7.
  split; [exact E8|]. split; [exact C8|]. split; [exact V8|].
  split; [exact L8 | exact S8].
Qed.

Lemma text_or_not (l : list cell) :
  (forall c, In c l -> not_text c) \/ (exists c, In c l /\ ~ not_text c).
Proof.
  induction l as [|c t [IH|[x [Hx Hn]]]].
  - left. intros c [].
  - destruct c as [[q|s]|].
    + left. intros c [<-|H]; [exact I | now apply IH].
    + right. exists (Some (Str s)). split; [now left | intro H; exact H].
    + left. intros c [<-|H]; [exact I | now apply IH].
  - right. exists x. split; [now right | assumption].
Qed.

Lemma mapM_cell_ge_text (x : Q) (l : list cell) :
  (exists c, In c l /\ ~ not_text c) -> mapM (cell_ge x) l = Raise TypeError.
Proof.
  induction l as [|c t IH]; intros [y [Hy Hn]]; [destruct Hy|].
  destruct c as [[q|s]|]; simpl; try reflexivity.
  - destruct Hy as [<-|Hy]; [exfalso; now apply Hn|].
    rewrite IH; [reflexivity | now exists y].
  - destruct Hy as [<-|Hy]; [exfalso; now apply Hn|].
    rewrite IH; [reflexivity | now exists y].
Qed.

Lemma age_between_cell (T : DataFrame) (i : nat) (lo hi : Q) (r : Row) :
  col_pos "age" (columns T) = Some i ->
  age_between (columns T) lo hi (values r) =
    ge_bool lo (cell_at i r) && le_bool hi (cell_at i r).
Proof.
  intro Hi. unfold age_between, value_at. now rewrite Hi.
Qed.

Lemma query_age_cases (T : DataFrame) (lo hi : Q) (i : nat) :
  col_pos "age" (columns T) = Some i ->
  ((forall r, In r (rows T) -> not_text (cell_at i r)) /\
   query_age T lo hi =
     Ok (mkDF (columns T)
           (filter (fun r => age_between (columns T) lo hi (values r)) (rows T))))
  \/
  ((exists r, In r (rows T) /\ ~ not_text (cell_at i r)) /\
   query_age T lo hi = Raise TypeError).
Proof.
  intro Hi.
  destruct (text_or_not (map (cell_at i) (rows T))) as [Hn|[c [Hc Hn]]].
  - left.
    assert (Hrows : forall r, In r (rows T) -> not_text (cell_at i r))
      by (intros r Hr; apply Hn; now apply in_map).
    split; [assumption|].
    rewrite (query_age_numeric T lo hi i Hi Hrows). do 2 f_equal.
    apply filter_ext. intro r. symmetry. now apply age_between_cell.
  - right. split.
    + apply in_map_iff in Hc as [r [<- Hr]]. now exists r.
    + unfold query_age. rewrite Hi.
      rewrite mapM_cell_ge_text; [reflexivity | now exists c].
Qed.



(** ** The checks before the form *)

Lemma before_filters_absent (int_of_text : string -> result Z)
    (bank : DataFrame) (m : string) (ms : list string) :
  absent_required bank = m :: ms ->
  before_filters int_of_text bank =
    ([error_missing_columns (m :: ms)], Raise StopException).
Proof.
  intro H. unfold before_filters. cbv zeta.
  unfold absent_required in H. rewrite H. reflexivity.
Qed.

Lemma before_filters_present (int_of_text : string -> result Z)
    (bank : DataFrame) :
  absent_required bank = [] ->
  before_filters int_of_text bank =
    ([dataframe (head 50 bank)],
     max_age <- (age <- getitem_col bank "age" ;; m <- series_max age ;;
                 py_int int_of_text m) ;;
     min_age <- (age <- getitem_col bank "age" ;; m <- series_min age ;;
                 py_int int_of_text m) ;;
     _ <- options bank "job" ;;
     _ <- options bank "marital" ;;
     _ <- options bank "default" ;;
     _ <- options bank "housing" ;;
     _ <- options bank "loan" ;;
     _ <- options bank "contact" ;;
     _ <- options bank "month" ;;
     _ <- options bank "day_of_week" ;;
     Ok (min_age, max_age)).
Proof.
  intro H. unfold before_filters. cbv zeta.
  unfold absent_required in H. rewrite H.
  destruct (age <- getitem_col bank "age" ;; m <- series_max age ;;
            py_int int_of_text m); [|reflexivity].
  destruct (age <- getitem_col bank "age" ;; m <- series_min age ;;
            py_int int_of_text m); [|reflexivity].
  destruct (options bank "job"); [|reflexivity].
  destruct (options bank "marital"); [|reflexivity].
  destruct (options bank "default"); [|reflexivity].
  destruct (options bank "housing"); [|reflexivity].
  destruct (options bank "loan"); [|reflexivity].
  destruct (options bank "contact"); [|reflexivity].
  destruct (options bank "month"); [|reflexivity].
  destruct (options bank "day_of_week"); reflexivity.
Qed.

Lemma before_filters_ok (int_of_text : string -> result Z) (bank : DataFrame)
    (shown : list ui_event) (lo hi : Z) :
  before_filters int_of_text bank = (shown, Ok (lo, hi)) ->
  absent_required bank = [] /\
  shown = [dataframe (head 50 bank)] /\
  exists age mx mn,
    getitem_col bank "age" = Ok age /\
    series_max age = Ok mx /\ py_int int_of_text mx = Ok hi /\
    series_min age = Ok mn /\ py_int int_of_text mn = Ok lo.
Proof.
  intro H.
  destruct (absent_required bank) as [|m ms] eqn:Habs.
  2:{ rewrite (before_filters_absent _ _ _ _ Habs) in H. discriminate H. }
  rewrite (before_filters_present _ _ Habs) in H.
  injection H as <- H. split; [reflexivity|]. split; [reflexivity|].
  destruct (getitem_col bank "age") as [age|] eqn:Hage; [|discriminate H].
  cbn [bind] in H.
  destruct (series_max age) as [mx|] eqn:Hmx; [|discriminate H].
  cbn [bind] in H.
  destruct (py_int int_of_text mx) as [a|] eqn:Ha; [|discriminate H].
  cbn [bind] in H.
  destruct (series_min age) as [mn|] eqn:Hmn; [|discriminate H].
  cbn [bind] in H.
  destruct (py_int int_of_text mn) as [b|] eqn:Hb; [|discriminate H].
  cbn [bind] in H.
  destruct (options bank "job"); [|discriminate H].
  destruct (options bank "marital"); [|discriminate H].
  destruct (options bank "default"); [|discriminate H].
  destruct (options bank "housing"); [|discriminate H].
  destruct (options bank "loan"); [|discriminate H].
  destruct (options bank "contact"); [|discriminate H].
  destruct (options bank "month"); [|discriminate H].
  destruct (options bank "day_of_week"); [|discriminate H].
  cbn [bind] in H. injection H as -> ->.
  exists age, mx, mn. repeat split; assumption.
Qed.

Lemma absent_required_spec (bank : DataFrame) (c : string) :
  In c (absent_required bank) <->
  In c required_cols /\ ~ In c (columns bank).
Proof.
  unfold absent_required. rewrite filter_In. split; intros [Hc H]; split;
    try assumption.
  - intro Hin. apply negb_true_iff in H.
    assert (E : existsb (String.eqb c) (columns bank) = true).
    { apply existsb_exists. exists c. split; [assumption|].
      apply String.eqb_refl. }
    congruence.
  - apply negb_true_iff.
    destruct (existsb (String.eqb c) (columns bank)) eqn:E; [|reflexivity].
    exfalso. apply H. apply existsb_exists in E as [x [Hx Heq]].
    apply String.eqb_eq in Heq. now subst.
Qed.

Lemma main_loaded_run
    (read_csv : string -> stream -> result DataFrame * stream)
    (read_excel : stream -> result DataFrame * stream)
    (fl : Q -> Q) (int_of_text : string -> result Z)
    (file : stream) (w : Widgets) (bank : DataFrame) (shown : list ui_event)
    (e : exn) :
  outcome (load_data read_csv read_excel file) = Ok bank ->
  before_filters int_of_text bank = (shown, Raise e) ->
  main read_csv read_excel fl int_of_text (Some file) w = (shown, Raise e).
Proof.
  intros Hload Hb. unfold main. rewrite Hload, ui_bind_lift_ok, Hb. reflexivity.
Qed.

(** X6.  When the loaded table lacks a required column, the page shows one
    error that lists the absent required columns, in the order of
    [required_cols], and stops: no preview, no filter, no proportion. *)
Theorem main_stops_on_missing_columns
    (read_csv : string -> stream -> result DataFrame * stream)
    (read_excel : stream -> result DataFrame * stream)
    (fl : Q -> Q) (int_of_text : string -> result Z)
    (file : stream) (w : Widgets) (bank : DataFrame) :
  outcome (load_data read_csv read_excel file) = Ok bank ->
  absent_required bank <> [] ->
  main read_csv read_excel fl int_of_text (Some file) w =
    ([error_missing_columns (absent_required bank)], Raise StopException) /\
  (forall c, In c (absent_required bank) <->
             In c required_cols /\ ~ In c (columns bank)).
Proof.
  intros Hload Habs. split; [|apply absent_required_spec].
  destruct (absent_required bank) as [|m ms] eqn:E; [congruence|].
  apply main_loaded_run with (bank := bank); [assumption|].
  now apply before_filters_absent.
Qed.

Lemma main_stops_on_missing_columns_witness :
  main (reads_table bank_two_absent) binary_read_excel exact int_rejects
    (Some five_file) (untouched 30 30) =
  ([error_missing_columns ["loan"; "y"]], Raise StopException).
Proof.
  apply (main_stops_on_missing_columns (reads_table bank_two_absent)
           binary_read_excel exact int_rejects five_file (untouched 30 30)
           bank_two_absent).
  - reflexivity.
  - vm_compute. discriminate.
Defined.

Lemma dropna_all_missing (s : list cell) :
  (forall c, In c s -> c = None) -> dropna s = [].
Proof.
  induction s as [|c t IH]; intro H; [reflexivity|].
  rewrite (H c (or_introl eq_refl)). simpl. apply IH.
  intros c' Hc'. apply H. now right.
Qed.

(** X7.  When the loaded table has the required columns but no age at all
    (no row, or only missing ages), the page shows the preview of the raw
    table and then raises [ValueError] while sizing the slider: nothing is
    filtered or summarised. *)
Theorem main_needs_an_age
    (read_csv : string -> stream -> result DataFrame * stream)
    (read_excel : stream -> result DataFrame * stream)
    (fl : Q -> Q) (int_of_text : string -> result Z)
    (file : stream) (w : Widgets) (bank : DataFrame) :
  outcome (load_data read_csv read_excel file) = Ok bank ->
  absent_required bank = [] ->
  (forall r, In r (rows bank) ->
     value_at (columns bank) "age" (values r) = None) ->
  main read_csv read_excel fl int_of_text (Some file) w =
    ([dataframe (head 50 bank)], Raise ValueError).
Proof.
  intros Hload Habs Hage.
  apply main_loaded_run with (bank := bank); [assumption|].
  rewrite (before_filters_present _ _ Habs). f_equal.
  destruct (absent_required_nil bank "age" Habs ltac:(simpl; tauto)) as [i Hi].
  rewrite (getitem_col_pos _ _ _ Hi). cbn [bind].
  unfold series_max. rewrite dropna_all_missing; [reflexivity|].
  intros c Hc. apply in_map_iff in Hc as [r [<- Hr]].
  specialize (Hage r Hr). unfold value_at in Hage. now rewrite Hi in Hage.
Qed.

Lemma main_needs_an_age_witness :
  main (reads_table bank_no_rows) binary_read_excel exact int_rejects
    (Some five_file) (untouched 0 0) =
  ([dataframe (head 50 bank_no_rows)], Raise ValueError).
Proof.
  apply (main_needs_an_age (reads_table bank_no_rows) binary_read_excel exact
           int_rejects five_file (untouched 0 0) bank_no_rows).
  - reflexivity.
  - reflexivity.
  - intros r [].
Defined.

Lemma scalar_leb_raises (a b : scalar) (e : exn) :
  scalar_leb a b = Raise e -> e = TypeError.
Proof.
  destruct a, b; simpl; intro H; try discriminate H; now injection H.
Qed.

Lemma insert_key_raises {V : Type} (kv : scalar * V) (l : list (scalar * V))
    (e : exn) :
  insert_key kv l = Raise e -> e = TypeError.
Proof.
  induction l as [|h t IH]; simpl; [discriminate|].
  destruct (scalar_leb (fst kv) (fst h)) as [[|]|e'] eqn:E; simpl.
  - discriminate.
  - destruct (insert_key kv t); simpl; [discriminate|].
    intro H. injection H as <-. now apply IH.
  - intro H. injection H as <-. now apply scalar_leb_raises in E.
Qed.

Lemma sort_keys_raises {V : Type} (l : list (scalar * V)) (e : exn) :
  sort_keys l = Raise e -> e = TypeError.
Proof.
  induction l as [|h t IH]; simpl; [discriminate|].
  destruct (sort_keys t) as [t'|e']; simpl.
  - apply insert_key_raises.
  - intro H. injection H as <-. now apply IH.
Qed.

(** X8.  Once the checks before the form have passed, every required
    column is there, and neither the filter chain nor a proportion table
    can fail on a missing column any more: for any state of the form the
    chain returns a table with the same columns or raises [TypeError], and
    a proportion table that raises raises [TypeError]. *)
Theorem checked_table_has_its_columns (int_of_text : string -> result Z)
    (bank : DataFrame) (shown : list ui_event) (bounds : Z * Z) :
  before_filters int_of_text bank = (shown, Ok bounds) ->
  (forall c, In c required_cols -> In c (columns bank)) /\
  (forall w,
     (exists F, apply_filters bank w = Ok F /\ columns F = columns bank) \/
     apply_filters bank w = Raise TypeError) /\
  (forall fl e, target_perc fl bank = Raise e -> e = TypeError).
Proof.
  destruct bounds as [lo hi]. intro H.
  destruct (before_filters_ok _ _ _ _ _ H) as [Habs _].
  split; [|split].
  - intros c Hc. destruct (in_dec string_dec c (columns bank)) as [Hin|Hn];
      [assumption|].
    assert (Hc' : In c (absent_required bank))
      by (apply absent_required_spec; now split).
    rewrite Habs in Hc'. destruct Hc'.
  - intro w.
    destruct (absent_required_nil bank "age" Habs ltac:(simpl; tauto)) as [i Hi].
    destruct (query_age_cases bank (inject_Z (fst (idades w)))
                (inject_Z (snd (idades w))) i Hi) as [[_ Hq]|[_ Hq]].
    + left.
      destruct (chain_after_query bank
                  (mkDF (columns bank)
                     (filter (fun r => age_between (columns bank)
                                         (inject_Z (fst (idades w)))
                                         (inject_Z (snd (idades w))) (values r))
                        (rows bank)))
                  w (inject_Z (fst (idades w))) (inject_Z (snd (idades w)))
                  Habs eq_refl (filter_values _ (rows bank)))
        as [F [HF [HC _]]].
      exists F. unfold apply_filters. rewrite Hq. unfold bind at 1.
      split; assumption.
    + right. unfold apply_filters. now rewrite Hq.
  - intros fl e He. unfold target_perc in He.
    destruct (absent_required_nil bank "y" Habs ltac:(simpl; tauto)) as [j Hj].
    rewrite (getitem_col_pos _ _ _ Hj) in He. cbn [bind] in He.
    unfold sort_index in He.
    destruct (sort_keys (value_counts_normalize fl (map (cell_at j) (rows bank))))
      as [s|e'] eqn:E; simpl in He; [discriminate He|].
    injection He as <-. now apply sort_keys_raises in E.
Qed.

Lemma checked_table_has_its_columns_witness :
  (forall c, In c required_cols -> In c (columns bank_age_text)) /\
  apply_filters bank_age_text (untouched 30 40) = Raise TypeError.
Proof.
  destruct (checked_table_has_its_columns
              (fun s => if String.eqb s "30" then Ok 30%Z else Ok 40%Z)
              bank_age_text [dataframe (head 50 bank_age_text)] (30, 40)%Z
              eq_refl) as [Hcols [Hrun _]].
  split; [exact Hcols|].
  destruct (Hrun (untouched 30 40)) as [[F [HF _]]|Hraise].
  - vm_compute in HF. discriminate HF.
  - exact Hraise.
Defined.

(** X9.  Without an upload the page only asks for one and returns; with an
    upload that the loader cannot read, the page shows nothing and the
    error of the loader leaves [main] as it is. *)
Theorem main_without_a_table
    (read_csv : string -> stream -> result DataFrame * stream)
    (read_excel : stream -> result DataFrame * stream)
    (fl : Q -> Q) (int_of_text : string -> result Z) (w : Widgets) :
  main read_csv read_excel fl int_of_text None w =
    ([info_upload_a_file], Ok None) /\
  (forall file e1 e2,
     fst (read_csv ";" file) = Raise e1 ->
     fst (read_excel (seek (snd (read_csv ";" file)) 0)) = Raise e2 ->
     main read_csv read_excel fl int_of_text (Some file) w = ([], Raise e2)).
Proof.
  split; [reflexivity|].
  intros file e1 e2 H1 H2. unfold main, load_data.
  destruct (read_csv ";" file) as [r f1]. simpl in H1, H2. subst r.
  destruct (read_excel (seek f1 0)) as [r2 f3]. simpl in H2. subst r2.
  reflexivity.
Qed.

Lemma main_without_a_table_witness :
  main binary_read_csv binary_read_excel exact int_rejects
    (Some broken_zip_file) (untouched 0 0) = ([], Raise BadZipFile).
Proof.
  destruct (main_without_a_table binary_read_csv binary_read_excel exact
              int_rejects (untouched 0 0)) as [_ H].
  apply (H broken_zip_file UnicodeDecodeError BadZipFile); reflexivity.
Defined.

(** ** After the filters *)

(** X10.  A run of the second half of [main] that completes has filtered
    the raw table and summarised it; if the filtered table is empty it has
    shown the warning and the note about the original proportion and
    reports the raw proportions twice; otherwise it has shown the first 50
    filtered rows, no note, and reports the proportions of the filtered
    table.  So the note is shown exactly when the filtered table is empty. *)
Theorem after_filters_completed (fl : Q -> Q) (bank_raw : DataFrame)
    (w : Widgets) (shown : list ui_event) (report : Report) :
  after_filters fl bank_raw w = (shown, Ok report) ->
  apply_filters bank_raw w = Ok (bank_filtered report) /\
  target_perc fl bank_raw = Ok (bank_raw_target_perc report) /\
  (empty (bank_filtered report) = true ->
     shown = [warning_no_row_matches; info_using_original_proportion] /\
     bank_target_perc report = bank_raw_target_perc report) /\
  (empty (bank_filtered report) = false ->
     shown = [dataframe (head 50 (bank_filtered report))] /\
     target_perc fl (bank_filtered report) = Ok (bank_target_perc report)) /\
  (In info_using_original_proportion shown <->
   empty (bank_filtered report) = true).
Proof.
  unfold after_filters. intro H.
  destruct (apply_filters bank_raw w) as [bank|e] eqn:Hf; [|discriminate H].
  rewrite ui_bind_lift_ok in H.
  destruct (empty bank) eqn:He; rewrite ui_bind_show in H;
    destruct (target_perc fl bank_raw) as [raw|e] eqn:Hraw;
    try discriminate H; rewrite ui_bind_lift_ok in H.
  - rewrite ui_bind_show in H. cbn in H. injection H as <- <-. cbn.
    rewrite He. repeat split; try reflexivity; try discriminate.
    intros _. right. now left.
  - destruct (target_perc fl bank) as [perc|e] eqn:Hperc;
      [|discriminate H].
    rewrite ui_bind_lift_ok in H. cbn in H. injection H as <- <-. cbn.
    rewrite He. repeat split; try reflexivity; try discriminate;
      try assumption.
    intros [H|[]]. discriminate H.
Qed.

Lemma after_filters_completed_witness :
  exists shown report,
    after_filters exact bank_five admin_30_40 = (shown, Ok report) /\
    shown = [dataframe (head 50 (bank_filtered report))] /\
    bank_target_perc report = [(Str "no", 100 # 1)].
Proof.
  destruct (after_filters_completed exact bank_five admin_30_40
              [dataframe (mkDF required_cols
                 [bank_row 0 (number 30) (text "admin") (text "married")
                    (text "no")])]
              (mkReport
                 (mkDF required_cols
                    [bank_row 0 (number 30) (text "admin") (text "married")
                       (text "no")])
                 [(Str "no", 300 # 5); (Str "yes", 200 # 5)]
                 [(Str "no", 100 # 1)]) eq_refl)
    as [_ [_ [_ [Hfull _]]]].
  destruct (Hfull eq_refl) as [Hshown _].
  do 2 eexists. split; [reflexivity|]. split; [exact Hshown | reflexivity].
Defined.

(** ** The form as first rendered *)












(** ** Sorting by key *)

Lemma scalar_leb_total (a b : scalar) :
  scalar_leb a b = Ok false -> scalar_leb b a = Ok true.
Proof.
  destruct a as [p|s], b as [q|t]; simpl; try discriminate.
  - intro H. injection H as H. apply Qle_bool_false in H.
    apply Qle_bool_iff in H. now rewrite H.
  - intro H. injection H as H.
    destruct (String.leb_total s t) as [E|E]; [congruence | now rewrite E].
Qed.

Lemma insert_key_hd {V : Type} (h kv : scalar * V) (t t' : list (scalar * V)) :
  HdRel by_key h t -> by_key h kv -> insert_key kv t = Ok t' ->
  HdRel by_key h t'.
Proof.
  intros Hhd Hkv H. destruct t as [|x t0]; simpl in H.
  - injection H as <-. now constructor.
  - destruct (scalar_leb (fst kv) (fst x)) as [[|]|]; simpl in H;
      try discriminate H.
    + injection H as <-. now constructor.
    + destruct (insert_key kv t0); simpl in H; [|discriminate H].
      injection H as <-. constructor. now inversion Hhd.
Qed.

Lemma insert_key_sorted {V : Type} (kv : scalar * V) (l l' : list (scalar * V)) :
  Sorted by_key l -> insert_key kv l = Ok l' -> Sorted by_key l'.
Proof.
  revert l'. induction l as [|h t IH]; intros l' Hs H; simpl in H.
  - injection H as <-. repeat constructor.
  - destruct (scalar_leb (fst kv) (fst h)) as [[|]|] eqn:E; simpl in H;
      try discriminate H.
    + injection H as <-. constructor; [assumption|]. now constructor.
    + destruct (insert_key kv t) as [t'|] eqn:Et; simpl in H; [|discriminate H].
      injection H as <-. inversion Hs as [|? ? Hst Hhd]; subst.
      constructor; [now apply IH|].
      apply (insert_key_hd h kv t); try assumption.
      now apply scalar_leb_total.
Qed.

Lemma sort_keys_sorted {V : Type} (l l' : list (scalar * V)) :
  sort_keys l = Ok l' -> Sorted by_key l'.
Proof.
  revert l'. induction l as [|h t IH]; intros l' H; simpl in H.
  - injection H as <-. constructor.
  - destruct (sort_keys t) as [t'|] eqn:Et; simpl in H; [|discriminate H].
    apply (insert_key_sorted h t'); [now apply IH | assumption].
Qed.

Lemma sorted_keys {V : Type} (l : list (scalar * V)) :
  Sorted by_key l -> Sorted key_le (map fst l).
Proof.
  induction 1 as [|x l Hs IH Hhd]; simpl; constructor; [assumption|].
  destruct Hhd; simpl; constructor. assumption.
Qed.

Lemma one_kind_pairs {V : Type} (f : scalar -> scalar * V) (l : list scalar)
    (x y : scalar * V) :
  (forall v, fst (f v) = v) ->
  one_kind l -> In x (map f l) -> In y (map f l) ->
  exists r, scalar_leb (fst x) (fst y) = Ok r.
Proof.
  intros Hf Hk Hx Hy.
  apply in_map_iff in Hx as [a [<- Ha]]. apply in_map_iff in Hy as [b [<- Hb]].
  rewrite !Hf. now apply (one_kind_comparable l).
Qed.

(** X13.  [plus_all] returns the non-missing values it was given, each as
    often as given, in ascending order and followed by "all" as the last
    option, whenever those values are of one kind; it raises only when
    they are not, and then it raises [TypeError]. *)
Theorem plus_all_sorted_then_all (unique_list : list cell) :
  (one_kind (dropna unique_list) ->
   exists xs,
     plus_all unique_list = Ok (xs ++ [Str "all"]) /\
     Permutation xs (dropna unique_list) /\
     Sorted key_le xs) /\
  (forall e, plus_all unique_list = Raise e ->
     e = TypeError /\ ~ one_kind (dropna unique_list)).
Proof.
  assert (Hok : one_kind (dropna unique_list) ->
            exists xs,
              plus_all unique_list = Ok (xs ++ [Str "all"]) /\
              Permutation xs (dropna unique_list) /\
              Sorted key_le xs).
  { intro Hk. unfold plus_all.
    destruct (sort_keys_perm (map (fun v => (v, tt)) (dropna unique_list)))
      as [l' [Hl' Hp]].
    { intros x y. now apply one_kind_pairs. }
    rewrite Hl'. cbn [bind]. exists (map fst l').
    split; [reflexivity|]. split.
    - rewrite (Permutation_map fst Hp), map_map. simpl. now rewrite map_id.
    - apply sorted_keys. now apply (sort_keys_sorted _ l' Hl'). }
  split; [exact Hok|].
  intros e He. split.
  - unfold plus_all in He.
    destruct (sort_keys (map (fun v => (v, tt)) (dropna unique_list)))
      as [l'|e'] eqn:E; simpl in He; [discriminate He|].
    injection He as <-. now apply sort_keys_raises in E.
  - intro Hk. destruct (Hok Hk) as [xs [Hxs _]]. congruence.
Qed.

Lemma plus_all_sorted_then_all_witness :
  exists xs,
    plus_all [text "services"; None; text "admin"] = Ok (xs ++ [Str "all"]) /\
    Sorted key_le xs.
Proof.
  destruct (plus_all_sorted_then_all [text "services"; None; text "admin"])
    as [Hok _].
  destruct Hok as [xs [Hxs [_ Hs]]].
  - right. simpl. intros v [<-|[<-|[]]]; eexists; reflexivity.
  - exists xs. split; assumption.
Defined.

(** X14.  The proportion table is indexed in ascending order of the
    values of [y], whatever their counts. *)
Theorem target_perc_ascending (fl : Q -> Q) (T : DataFrame) (y : list cell) :
  getitem_col T "y" = Ok y ->
  one_kind (dropna y) ->
  exists S, target_perc fl T = Ok S /\ Sorted key_le (map fst S).
Proof.
  intros Hy Hkind. unfold target_perc. rewrite Hy. cbn [bind].
  unfold sort_index.
  destruct (sort_keys_perm (value_counts_normalize fl y)) as [l' [Hl' Hp]].
  - intros a b Ha Hb. apply (one_kind_comparable (dropna y)); [assumption| |];
      apply count_values_keys;
      apply (Permutation_in _ (Permutation_map fst (sort_counts_perm _)));
      unfold value_counts_normalize in *;
      [apply (in_map fst) in Ha | apply (in_map fst) in Hb];
      rewrite map_map in *; assumption.
  - rewrite Hl'. cbn [bind]. eexists. split; [reflexivity|].
    unfold times100. rewrite map_map. simpl.
    apply sorted_keys. now apply (sort_keys_sorted _ l' Hl').
Qed.

Lemma target_perc_ascending_witness :
  target_perc exact bank_five = Ok [(Str "no", 300 # 5); (Str "yes", 200 # 5)]
  /\ exists S, target_perc exact bank_five = Ok S /\ Sorted key_le (map fst S).
Proof.
  split; [reflexivity|].
  apply (target_perc_ascending exact bank_five
           (map (cell_at 9) (rows bank_five)) eq_refl).
  right. simpl. intros v Hv.
  repeat (destruct Hv as [<-|Hv]; [eexists; reflexivity|]). destruct Hv.
Defined.

(** ** What a percentage is *)

Lemma bump_entry_sum (w v : scalar) (acc : Series nat) :
  sum_counts (entries_for w (bump v acc)) =
    (sum_counts (entries_for w acc) + if scalar_eqb v w then 1 else 0)%nat.
Proof.
  unfold entries_for. induction acc as [|[k c] t IH]; simpl.
  - destruct (scalar_eqb v w); reflexivity.
  - destruct (scalar_eqb k v) eqn:Ekv; simpl.
    + destruct (scalar_eqb k w) eqn:Ekw; simpl.
      * assert (Evw : scalar_eqb v w = true).
        { apply scalar_eqb_trans with k; [|assumption].
          now rewrite scalar_eqb_sym. }
        rewrite Evw. lia.
      * destruct (scalar_eqb v w) eqn:Evw; [|lia].
        assert (scalar_eqb k w = true)
          by now apply scalar_eqb_trans with v.
        congruence.
    + destruct (scalar_eqb k w); simpl; rewrite IH; lia.
Qed.

Lemma count_from_entry_sum (w : scalar) (l : list scalar) : forall acc,
  sum_counts (entries_for w (count_from acc l)) =
    (sum_counts (entries_for w acc) + occurrences w l)%nat.
Proof.
  unfold occurrences.
  induction l as [|v t IH]; intro acc; simpl; [lia|].
  unfold count_from in *. simpl. rewrite IH, bump_entry_sum.
  destruct (scalar_eqb v w); simpl; lia.
Qed.

Lemma count_values_entry (s : list cell) (v k : scalar) (c : nat) :
  In (k, c) (count_values s) -> scalar_eqb k v = true ->
  In v (dropna s) ->
  c = occurrences v (dropna s).
Proof.
  intros Hin Hk Hv.
  pose proof (count_from_entry_sum v (dropna s) []) as Hsum.
  fold (count_values s) in Hsum. simpl in Hsum.
  pose proof (count_values_one_entry s v Hv) as Hone.
  assert (Hin' : In (k, c) (entries_for v (count_values s)))
    by (apply filter_In; now split).
  destruct (entries_for v (count_values s)) as [|x [|y l]];
    try discriminate Hone.
  destruct Hin' as [->|[]]. simpl in Hsum. lia.
Qed.

(** X15.  The percentage reported for a value of [y] is its number of
    occurrences divided by the number of non-missing cells of [y], rounded,
    then multiplied by 100 and rounded again: missing cells count neither
    above nor below the line. *)
Theorem target_perc_is_the_share (fl : Q -> Q) (T : DataFrame)
    (y : list cell) (v : scalar) :
  getitem_col T "y" = Ok y ->
  one_kind (dropna y) ->
  In (Some v) y ->
  exists S k,
    target_perc fl T = Ok S /\
    same_value k v /\
    entries_for v S =
      [(k, fl (fl (Qnat (occurrences v (dropna y)) / Qnat (length (dropna y)))
               * 100))].
Proof.
  intros Hy Hkind Hv. apply In_dropna in Hv.
  destruct (target_perc_sorted fl T y Hy Hkind) as [S [HS Hp]].
  pose proof (target_perc_one_entry fl y S v Hp Hv) as Hone.
  destruct (entries_for v S) as [|[k p] [|kp l]] eqn:E; try discriminate Hone.
  exists S, k. split; [assumption|].
  assert (Hin : In (k, p) (entries_for v S)) by (rewrite E; now left).
  apply filter_In in Hin as [Hin Hk]. simpl in Hk.
  split; [now apply scalar_eqb_same|].
  apply (Permutation_in _ Hp) in Hin.
  unfold times100, value_counts_normalize in Hin. rewrite map_map in Hin.
  apply in_map_iff in Hin as [[k' c] [Heq Hkc]]. simpl in Heq.
  injection Heq as -> <-.
  pose proof (sort_counts_perm (count_values y)) as Hsc.
  apply (Permutation_in _ Hsc) in Hkc.
  rewrite E, (sum_counts_perm _ _ Hsc), count_values_sum.
  now rewrite (count_values_entry y v k c Hkc Hk Hv).
Qed.

Lemma target_perc_is_the_share_witness :
  exists S k,
    target_perc exact bank_five = Ok S /\
    entries_for (Str "yes") S = [(k, exact (exact (Qnat 2 / Qnat 5) * 100))].
Proof.
  destruct (target_perc_is_the_share exact bank_five
              (map (cell_at 9) (rows bank_five)) (Str "yes") eq_refl)
    as [S [k [HS [_ HE]]]].
  - right. simpl. intros v Hv.
    repeat (destruct Hv as [<-|Hv]; [eexists; reflexivity|]). destruct Hv.
  - simpl. now left.
  - exists S, k. split; [exact HS | exact HE].
Defined.

(** ** The options of a multiselect *)

Lemma cell_eqb_refl (c : cell) : cell_eqb c c = true.
Proof. destruct c; simpl; [apply scalar_eqb_refl | reflexivity]. Qed.

Lemma cell_eqb_sym (a b : cell) : cell_eqb a b = cell_eqb b a.
Proof. destruct a, b; simpl; try reflexivity. apply scalar_eqb_sym. Qed.

Lemma cell_eqb_trans (a b c : cell) :
  cell_eqb a b = true -> cell_eqb b c = true -> cell_eqb a c = true.
Proof.
  destruct a, b, c; simpl; try discriminate; try reflexivity.
  apply scalar_eqb_trans.
Qed.

Lemma unique_aux_in (s : list cell) : forall seen c,
  In c (unique_aux seen s) -> In c s.
Proof.
  induction s as [|a t IH]; intros seen c H; simpl in *; [assumption|].
  destruct (existsb (cell_eqb a) seen).
  - right. now apply (IH seen).
  - destruct H as [H|H]; [now left | right; now apply (IH (a :: seen))].
Qed.

Lemma unique_aux_once (s : list cell) : forall seen w,
  ((exists x, In x seen /\ cell_eqb x w = true) ->
   filter (fun x => cell_eqb x w) (unique_aux seen s) = []) /\
  (length (filter (fun x => cell_eqb x w) (unique_aux seen s)) <= 1)%nat.
Proof.
  induction s as [|a t IH]; intros seen w; simpl.
  - split; [reflexivity | lia].
  - destruct (existsb (cell_eqb a) seen) eqn:E; [apply IH|].
    simpl. destruct (cell_eqb a w) eqn:Eaw.
    + split.
      * intros [x [Hx Hxw]]. exfalso.
        assert (Hax : cell_eqb a x = true).
        { apply cell_eqb_trans with w; [assumption|].
          now rewrite cell_eqb_sym. }
        assert (existsb (cell_eqb a) seen = true)
          by (apply existsb_exists; now exists x).
        congruence.
      * destruct (IH (a :: seen) w) as [Hnil _].
        rewrite Hnil; [simpl; lia|]. exists a. split; [now left | assumption].
    + destruct (IH (a :: seen) w) as [Hnil Hle]. split; [|assumption].
      intros [x [Hx Hxw]]. apply Hnil. exists x. split; [now right | assumption].
Qed.

Lemma unique_aux_covers (s : list cell) : forall seen c,
  In c s ->
  (exists x, In x seen /\ cell_eqb c x = true) \/
  (exists c', In c' (unique_aux seen s) /\ cell_eqb c' c = true).
Proof.
  induction s as [|a t IH]; intros seen c H; [destruct H|].
  simpl. destruct (existsb (cell_eqb a) seen) eqn:E.
  - destruct H as [<-|H]; [|now apply IH].
    left. apply existsb_exists in E as [x [Hx Hax]]. now exists x.
  - destruct H as [<-|H].
    + right. exists a. split; [now left | apply cell_eqb_refl].
    + destruct (IH (a :: seen) c H) as [[x [[<-|Hx] Hcx]]|[c' [Hc' He]]].
      * right. exists a. split; [now left | now rewrite cell_eqb_sym].
      * left. now exists x.
      * right. exists c'. split; [now right | assumption].
Qed.

Lemma occurrences_dropna (v : scalar) (s : list cell) :
  occurrences v (dropna s) =
    length (filter (fun x => cell_eqb x (Some v)) s).
Proof.
  unfold occurrences. induction s as [|[w|] t IH]; simpl; [reflexivity| |exact IH].
  destruct (scalar_eqb w v); simpl; now rewrite IH.
Qed.

Lemma occurrences_perm (v : scalar) (l l' : list scalar) :
  Permutation l l' -> occurrences v l = occurrences v l'.
Proof.
  unfold occurrences.
  induction 1 as [|x l l' Hp IH|x y l|l l' l'' Hp1 IH1 Hp2 IH2]; simpl.
  - reflexivity.
  - destruct (scalar_eqb x v); simpl; lia.
  - destruct (scalar_eqb x v), (scalar_eqb y v); reflexivity.
  - lia.
Qed.

Lemma unique_once (s : list cell) (v : scalar) :
  In (Some v) s -> occurrences v (dropna (unique s)) = 1%nat.
Proof.
  intro Hv. rewrite occurrences_dropna. unfold unique.
  destruct (unique_aux_once s [] (Some v)) as [_ Hle].
  destruct (unique_aux_covers s [] (Some v) Hv) as [[x [[] _]]|[c' [Hc' He]]].
  assert (Hin : In c' (filter (fun x => cell_eqb x (Some v)) (unique_aux [] s)))
    by (apply filter_In; now split).
  destruct (filter (fun x => cell_eqb x (Some v)) (unique_aux [] s));
    [destruct Hin | simpl in *; lia].
Qed.

(** X16.  For a column of the table whose values are of one kind, a
    multiselect offers each distinct non-missing value of the column
    exactly once, in ascending order, and "all" after them; it offers
    nothing that the column does not hold. *)
Theorem options_offer_each_value_once (bank : DataFrame) (col : string)
    (column : list cell) :
  getitem_col bank col = Ok column ->
  one_kind (dropna column) ->
  exists xs,
    options bank col = Ok (xs ++ [Str "all"]) /\
    Sorted key_le xs /\
    (forall v, In (Some v) column -> occurrences v xs = 1%nat) /\
    (forall k, In k xs -> In (Some k) column).
Proof.
  intros Hcol Hkind. unfold options. rewrite Hcol. cbn [bind].
  assert (Hsub : forall k, In k (dropna (unique column)) -> In (Some k) column).
  { intros k Hk. apply In_dropna in Hk. now apply (unique_aux_in column []). }
  assert (Hk1 : one_kind (dropna (unique column))).
  { destruct Hkind as [H|H]; [left|right]; intros v Hv; apply H;
      apply In_dropna; now apply Hsub. }
  unfold plus_all.
  destruct (sort_keys_perm (map (fun v => (v, tt)) (dropna (unique column))))
    as [l' [Hl' Hp]].
  { intros x y. now apply one_kind_pairs. }
  rewrite Hl'. cbn [bind]. exists (map fst l').
  assert (Hperm : Permutation (map fst l') (dropna (unique column))).
  { rewrite (Permutation_map fst Hp), map_map. simpl. now rewrite map_id. }
  split; [reflexivity|]. split; [|split].
  - apply sorted_keys. now apply (sort_keys_sorted _ l' Hl').
  - intros v Hv. rewrite (occurrences_perm v _ _ Hperm). now apply unique_once.
  - intros k Hk. apply Hsub. now apply (Permutation_in _ Hperm).
Qed.

Lemma options_offer_each_value_once_witness :
  options bank_five "job" =
    Ok ([Str "admin"; Str "services"; Str "technician"] ++ [Str "all"]) /\
  exists xs,
    options bank_five "job" = Ok (xs ++ [Str "all"]) /\
    occurrences (Str "admin") xs = 1%nat.
Proof.
  split; [reflexivity|].
  destruct (options_offer_each_value_once bank_five "job"
              (map (cell_at 1) (rows bank_five)) eq_refl)
    as [xs [Hxs [_ [Honce _]]]].
  - right. simpl. intros v Hv.
    repeat (destruct Hv as [<-|Hv]; [eexists; reflexivity|]). destruct Hv.
  - exists xs. split; [exact Hxs|]. apply Honce. simpl. now left.
Defined.

(** ** A completed run *)

Lemma after_filters_fallback_or_not (fl : Q -> Q) (bank_raw : DataFrame)
    (w : Widgets) (shown : list ui_event) (report : Report) :
  after_filters fl bank_raw w = (shown, Ok report) ->
  apply_filters bank_raw w = Ok (bank_filtered report) /\
  target_perc fl bank_raw = Ok (bank_raw_target_perc report) /\
  shown =
    if empty (bank_filtered report)
    then [warning_no_row_matches; info_using_original_proportion]
    else [dataframe (head 50 (bank_filtered report))].
Proof.
  unfold after_filters. intro H.
  destruct (apply_filters bank_raw w) as [bank|e] eqn:Hf; [|discriminate H].
  rewrite ui_bind_lift_ok in H.
  destruct (empty bank) eqn:He; rewrite ui_bind_show in H;
    destruct (target_perc fl bank_raw) as [raw|e] eqn:Hraw;
    try discriminate H; rewrite ui_bind_lift_ok in H.
  - rewrite ui_bind_show in H. cbn in H. injection H as <- <-. cbn.
    rewrite He. repeat split; reflexivity.
  - destruct (target_perc fl bank) as [perc|e] eqn:Hperc;
      [|discriminate H].
    rewrite ui_bind_lift_ok in H. cbn in H. injection H as <- <-. cbn.
    rewrite He. repeat split; reflexivity.
Qed.


(** X17.  A run of [main] that completes with a report had an upload that
    the loader read into a table with all the required columns; the report
    holds the table that the filter chain returns for the state of the form
    and the proportions of the raw table; and the page showed, in this
    order, the first 50 rows of the raw table and then either the first 50
    filtered rows or, when no row is left, the warning and the note about
    the original proportion. *)
Theorem main_completed
    (read_csv : string -> stream -> result DataFrame * stream)
    (read_excel : stream -> result DataFrame * stream)
    (fl : Q -> Q) (int_of_text : string -> result Z)
    (data_file_1 : option stream) (w : Widgets) (shown : list ui_event)
    (report : Report) :
  main read_csv read_excel fl int_of_text data_file_1 w =
    (shown, Ok (Some report)) ->
  exists file bank_raw,
    data_file_1 = Some file /\
    outcome (load_data read_csv read_excel file) = Ok bank_raw /\
    absent_required bank_raw = [] /\
    apply_filters bank_raw w = Ok (bank_filtered report) /\
    target_perc fl bank_raw = Ok (bank_raw_target_perc report) /\
    shown =
      dataframe (head 50 bank_raw)
      :: (if empty (bank_filtered report)
          then [warning_no_row_matches; info_using_original_proportion]
          else [dataframe (head 50 (bank_filtered report))]).
Proof.
  unfold main. intro H.
  destruct data_file_1 as [file|]; [|discriminate H].
  destruct (outcome (load_data read_csv read_excel file)) as [bank_raw|e]
    eqn:Hload; [|discriminate H].
  rewrite ui_bind_lift_ok in H.
  destruct (before_filters int_of_text bank_raw) as [s1 [[lo hi]|e]] eqn:Hb;
    [|discriminate H].
  destruct (before_filters_ok _ _ _ _ _ Hb) as [Habs [-> _]].
  cbn [ui_bind] in H.
  destruct (after_filters fl bank_raw w) as [s2 [rep|e]] eqn:Ha;
    [|discriminate H].
  cbn in H. injection H as <- <-.
  destruct (after_filters_fallback_or_not fl bank_raw w s2 rep Ha)
    as [Hf [Hraw Hshown]].
  exists file, bank_raw. rewrite Hshown, app_nil_r.
  repeat split; assumption.
Qed.

Lemma main_completed_witness :
  exists file bank_raw,
    Some five_file = Some file /\
    outcome (load_data reads_five binary_read_excel file) = Ok bank_raw /\
    apply_filters bank_raw admin_30_40 =
      Ok (mkDF required_cols
            [bank_row 0 (number 30) (text "admin") (text "married") (text "no")]).
Proof.
  destruct (main_completed reads_five binary_read_excel exact int_rejects
              (Some five_file) admin_30_40
              [dataframe (head 50 bank_five);
               dataframe (mkDF required_cols
                 [bank_row 0 (number 30) (text "admin") (text "married")
                    (text "no")])]
              (mkReport
                 (mkDF required_cols
                    [bank_row 0 (number 30) (text "admin") (text "married")
                       (text "no")])
                 [(Str "no", 300 # 5); (Str "yes", 200 # 5)]
                 [(Str "no", 100 # 1)]) eq_refl)
    as [file [bank_raw [Hfile [Hload [_ [Hf _]]]]]].
  exists file, bank_raw. repeat split; assumption.
Defined.
